(** * vscode-bazel: package labels, target queries and CodeLens actions

    A shallow embedding of [src/bazel/bazel_utils.ts]
    ([getTargetsForBuildFile]) and of the CodeLens provider
    ([BazelBuildCodeLensProvider.provideCodeLenses] and [addCodeLens]),
    together with the part of the JavaScript runtime they run on: the
    string primitives and the two flavours ([posix], [win32]) of Node's
    [path] module, which [import * as path from "path"] binds according
    to the host operating system.

    Strings are sequences of 8-bit characters; the path functions look
    only at separators, dots, colons and drive letters, all of them
    ASCII. Integers of the runtime are [Z], and [NaN] is [None]. The
    collaborators of the extension that are not part of these two files
    (the query client, the workspace lookup, the editor's warning box)
    are the fields of [Host] and the events of a [Trace]. *)

From Stdlib Require Import ZArith Lia ZifyBool List Bool Ascii String.
Import ListNotations.

Open Scope string_scope.
Open Scope Z_scope.

(** ** Exceptions *)

(** A JavaScript [Error] value; only its message is kept. *)
Record Error : Type := mkError { message : string }.

(** The outcome of evaluating an expression that may throw, and also the
    settled state of a promise: [Ok] is a normal return (a fulfilled
    promise), [Throw] an exception (a rejected promise). *)
Inductive result (A : Type) : Type :=
| Ok (a : A)
| Throw (e : Error).
Arguments Ok {A} a.
Arguments Throw {A} e.

Definition result_bind {A B : Type} (r : result A) (k : A -> result B)
  : result B :=
  match r with
  | Ok a => k a
  | Throw e => Throw e
  end.

Declare Scope result_scope.
Delimit Scope result_scope with result.
Notation "'try!' x <- r ; k" := (result_bind r (fun x => k))
  (at level 10, x name, r at level 100, k at level 200) : result_scope.
Open Scope result_scope.

(** ** String primitives of the runtime *)

Module JS.

(** A character code as [String.prototype.charCodeAt] returns it:
    [None] is [NaN], the answer for an index out of range. *)
Definition num : Type := option Z.

Definition code_of (c : ascii) : Z := Z.of_N (N_of_ascii c).

Definition len (s : string) : Z := Z.of_nat (String.length s).

Definition charCodeAt (s : string) (i : Z) : num :=
  if i <? 0 then None
  else option_map code_of (String.get (Z.to_nat i) s).

(** [a === b] on numbers: [NaN] differs from everything, itself
    included. *)
Definition strict_eq (a b : num) : bool :=
  match a, b with
  | Some x, Some y => x =? y
  | _, _ => false
  end.

Definition is_code (a : num) (c : Z) : bool := strict_eq a (Some c).

(** Index arguments of [slice]: a negative index counts from the
    end, and everything is clamped to [0 .. length]. *)
Definition clamp (n i : Z) : Z :=
  if i <? 0 then Z.max (n + i) 0 else Z.min i n.

Definition slice (s : string) (a b : Z) : string :=
  let from := clamp (len s) a in
  let to := clamp (len s) b in
  substring (Z.to_nat from) (Z.to_nat (to - from)) s.

(** [s.slice(a)] *)
Definition slice_from (s : string) (a : Z) : string :=
  slice s a (len s).

Fixpoint lastIndexOf_scan (s sep : string) (pos acc : Z) : Z :=
  let acc' := if prefix sep s then pos else acc in
  match s with
  | EmptyString => acc'
  | String _ s' => lastIndexOf_scan s' sep (pos + 1) acc'
  end.

(** [s.lastIndexOf(sep)], [-1] when [sep] does not occur. *)
Definition lastIndexOf (s sep : string) : Z :=
  lastIndexOf_scan s sep 0 (-1).

Definition lower_ascii (c : ascii) : ascii :=
  let n := N_of_ascii c in
  if ((65 <=? n) && (n <=? 90))%N then ascii_of_N (n + 32) else c.

(** [s.toLowerCase()] on strings of ASCII characters: the letters
    [A-Z] are folded and nothing else changes. On other characters the
    runtime folds more, and may change the length of the string; the
    properties that depend on what this function returns are stated
    for ASCII strings. *)
Fixpoint toLowerCase (s : string) : string :=
  match s with
  | EmptyString => EmptyString
  | String c s' => String (lower_ascii c) (toLowerCase s')
  end.

(** [s.endsWith(suffix)] *)
Definition endsWith (s suffix : string) : bool :=
  (len suffix <=? len s)
  && String.eqb (slice_from s (len s - len suffix)) suffix.

End JS.

(** ** Node's [path] module

    [relative] and [dirname], with what they call ([resolve],
    [normalizeString]), written after [lib/path.js] of Node, loop by
    loop: a [for] or [while] loop is a [Fixpoint] on the number of
    turns left, and the other arguments are the loop's variables. *)

(** What the path functions read from the process: the current working
    directory ([process.cwd()], which throws when that directory is
    gone) and the environment variables. *)
Record Process : Type := {
  cwd : result string;
  env : string -> option string
}.

Module NodePath.
Import JS.

Definition CHAR_DOT : Z := 46.
Definition CHAR_FORWARD_SLASH : Z := 47.
Definition CHAR_BACKWARD_SLASH : Z := 92.
Definition CHAR_COLON : Z := 58.
Definition CHAR_UPPERCASE_A : Z := 65.
Definition CHAR_UPPERCASE_Z : Z := 90.
Definition CHAR_LOWERCASE_A : Z := 97.
Definition CHAR_LOWERCASE_Z : Z := 122.

Definition isPosixPathSeparator (code : num) : bool :=
  is_code code CHAR_FORWARD_SLASH.

Definition isPathSeparator (code : num) : bool :=
  is_code code CHAR_FORWARD_SLASH || is_code code CHAR_BACKWARD_SLASH.

Definition isWindowsDeviceRoot (code : num) : bool :=
  match code with
  | Some c =>
      ((CHAR_UPPERCASE_A <=? c) && (c <=? CHAR_UPPERCASE_Z))
      || ((CHAR_LOWERCASE_A <=? c) && (c <=? CHAR_LOWERCASE_Z))
  | None => false
  end.

(** The local variables of [normalizeString]'s loop. *)
Record nstate : Type := {
  res : string;
  lastSegmentLength : Z;
  lastSlash : Z;
  dots : Z
}.

Section NormalizeString.
Variable path : string.
Variable allowAboveRoot : bool.
Variable separator : string.
Variable isSep : num -> bool.

(** The [if (allowAboveRoot)] at the end of the [dots === 2] case,
    followed by [lastSlash = i; dots = 0]. *)
Definition above_root (i : Z) (st : nstate) : nstate :=
  if allowAboveRoot then
    {| res := if len (res st) >? 0
              then res st ++ separator ++ ".."
              else "..";
       lastSegmentLength := 2;
       lastSlash := i;
       dots := 0 |}
  else
    {| res := res st;
       lastSegmentLength := lastSegmentLength st;
       lastSlash := i;
       dots := 0 |}.

(** One turn of the loop body at index [i], [code] being the
    character code the turn works on. *)
Definition normalize_step (i : Z) (code : num) (st : nstate) : nstate :=
  if isSep code then
    if (lastSlash st =? i - 1) || (dots st =? 1) then
      {| res := res st;
         lastSegmentLength := lastSegmentLength st;
         lastSlash := i;
         dots := 0 |}
    else if dots st =? 2 then
      if (len (res st) <? 2)
         || negb (lastSegmentLength st =? 2)
         || negb (is_code (charCodeAt (res st) (len (res st) - 1)) CHAR_DOT)
         || negb (is_code (charCodeAt (res st) (len (res st) - 2)) CHAR_DOT)
      then
        if len (res st) >? 2 then
          let lastSlashIndex := lastIndexOf (res st) separator in
          if lastSlashIndex =? -1 then
            {| res := EmptyString; lastSegmentLength := 0;
               lastSlash := i; dots := 0 |}
          else
            let res' := slice (res st) 0 lastSlashIndex in
            {| res := res';
               lastSegmentLength :=
                 len res' - 1 - lastIndexOf res' separator;
               lastSlash := i; dots := 0 |}
        else if negb (len (res st) =? 0) then
          {| res := EmptyString; lastSegmentLength := 0;
             lastSlash := i; dots := 0 |}
        else above_root i st
      else above_root i st
    else
      {| res := if len (res st) >? 0
                then res st ++ separator
                     ++ slice path (lastSlash st + 1) i
                else slice path (lastSlash st + 1) i;
         lastSegmentLength := i - lastSlash st - 1;
         lastSlash := i;
         dots := 0 |}
  else if is_code code CHAR_DOT && negb (dots st =? -1) then
    {| res := res st; lastSegmentLength := lastSegmentLength st;
       lastSlash := lastSlash st; dots := dots st + 1 |}
  else
    {| res := res st; lastSegmentLength := lastSegmentLength st;
       lastSlash := lastSlash st; dots := -1 |}.

(** [for (let i = 0; i <= path.length; ++i)], with [n] turns left.
    The turn at [i = path.length] either breaks or works on a
    forward slash. *)
Fixpoint normalize_loop (n : nat) (i : Z) (code : num) (st : nstate)
  : string :=
  match n with
  | O => res st
  | S n' =>
      if i <? len path then
        let code := charCodeAt path i in
        normalize_loop n' (i + 1) code (normalize_step i code st)
      else if isSep code then res st
      else
        let code := Some CHAR_FORWARD_SLASH in
        normalize_loop n' (i + 1) code (normalize_step i code st)
  end.

Definition normalize_init : nstate :=
  {| res := EmptyString; lastSegmentLength := 0; lastSlash := -1; dots := 0 |}.

Definition normalizeString : string :=
  normalize_loop (S (String.length path)) 0 (Some 0) normalize_init.
End NormalizeString.

(** *** The POSIX flavour *)
Module posix.
Section WithProcess.
Variable process : Process.

(** The loop of [resolve], from the last argument to the first
    ([rev_args] is the argument list reversed) and then the
    current directory, until an absolute path has been seen. *)
Fixpoint resolve_loop (rev_args : list string) (resolvedPath : string)
  : result (string * bool) :=
  match rev_args with
  | p :: rest =>
      if len p =? 0 then resolve_loop rest resolvedPath
      else
        let resolvedPath := p ++ "/" ++ resolvedPath in
        if is_code (charCodeAt p 0) CHAR_FORWARD_SLASH
        then Ok (resolvedPath, true)
        else resolve_loop rest resolvedPath
  | [] =>
      try! p <- cwd process;
      if len p =? 0 then Ok (resolvedPath, false)
      else
        Ok (p ++ "/" ++ resolvedPath,
            is_code (charCodeAt p 0) CHAR_FORWARD_SLASH)
  end.

Definition resolve (args : list string) : result string :=
  try! r <- resolve_loop (rev args) EmptyString;
  let '(resolvedPath, resolvedAbsolute) := r in
  let resolvedPath :=
    normalizeString resolvedPath (negb resolvedAbsolute) "/"
                    isPosixPathSeparator in
  if resolvedAbsolute then Ok ("/" ++ resolvedPath)
  else Ok (if len resolvedPath >? 0 then resolvedPath else ".").

(** The first loop of [relative]: the length of the common
    prefix and the last separator inside it. *)
Fixpoint common_loop (from to : string) (fromStart toStart : Z)
         (n : nat) (i lastCommonSep : Z) : Z * Z :=
  match n with
  | O => (i, lastCommonSep)
  | S n' =>
      let fromCode := charCodeAt from (fromStart + i) in
      if negb (strict_eq fromCode (charCodeAt to (toStart + i)))
      then (i, lastCommonSep)
      else if is_code fromCode CHAR_FORWARD_SLASH
      then common_loop from to fromStart toStart n' (i + 1) i
      else common_loop from to fromStart toStart n' (i + 1)
                       lastCommonSep
  end.

(** The second loop: one [".."] for every segment of [from]
    after the common part. *)
Fixpoint up_loop (from : string) (fromEnd : Z) (n : nat) (i : Z)
         (out : string) : string :=
  match n with
  | O => out
  | S n' =>
      let out :=
        if (i =? fromEnd)
           || is_code (charCodeAt from i) CHAR_FORWARD_SLASH
        then out ++ (if len out =? 0 then ".." else "/..")
        else out in
      up_loop from fromEnd n' (i + 1) out
  end.

Definition relative (from to : string) : result string :=
  if String.eqb from to then Ok EmptyString
  else
    try! from <- resolve [from];
    try! to <- resolve [to];
    if String.eqb from to then Ok EmptyString
    else
      let fromStart := 1 in
      let fromEnd := len from in
      let fromLen := fromEnd - fromStart in
      let toStart := 1 in
      let toLen := len to - toStart in
      let length := if fromLen <? toLen then fromLen else toLen in
      let '(i, lastCommonSep) :=
        common_loop from to fromStart toStart (Z.to_nat length) 0 (-1)
      in
      let tail (lastCommonSep : Z) : result string :=
        let out :=
          up_loop from fromEnd
                  (Z.to_nat (fromEnd - (fromStart + lastCommonSep + 1) + 1))
                  (fromStart + lastCommonSep + 1) EmptyString in
        Ok (out ++ slice_from to (toStart + lastCommonSep)) in
      if i =? length then
        if toLen >? length then
          if is_code (charCodeAt to (toStart + i)) CHAR_FORWARD_SLASH
          then Ok (slice_from to (toStart + i + 1))
          else if i =? 0
          then Ok (slice_from to (toStart + i))
          else tail lastCommonSep
        else if fromLen >? length then
          if is_code (charCodeAt from (fromStart + i)) CHAR_FORWARD_SLASH
          then tail i
          else if i =? 0 then tail 0
          else tail lastCommonSep
        else tail lastCommonSep
      else tail lastCommonSep.
End WithProcess.

(** The loop of [dirname], from [i] down to index 1; [None] when it
    ends without a [break]. *)
Fixpoint dirname_loop (path : string) (n : nat) (i : Z)
         (matchedSlash : bool) : option Z :=
  match n with
  | O => None
  | S n' =>
      if is_code (charCodeAt path i) CHAR_FORWARD_SLASH then
        if negb matchedSlash then Some i
        else dirname_loop path n' (i - 1) matchedSlash
      else dirname_loop path n' (i - 1) false
  end.

Definition dirname (path : string) : string :=
  if len path =? 0 then "."
  else
    let hasRoot := is_code (charCodeAt path 0) CHAR_FORWARD_SLASH in
    match dirname_loop path (Z.to_nat (len path - 1)) (len path - 1) true
    with
    | None => if hasRoot then "/" else "."
    | Some e =>
        if hasRoot && (e =? 1) then "//"
        else slice path 0 e
    end.
End posix.

(** *** The Windows flavour *)
Module win32.

(** [while (j < len && p(path.charCodeAt(j))) j++], with [n] turns
    left. *)
Fixpoint skip_while (p : num -> bool) (path : string) (n : nat) (j : Z)
  : Z :=
  match n with
  | O => j
  | S n' =>
      if (j <? len path) && p (charCodeAt path j)
      then skip_while p path n' (j + 1)
      else j
  end.

Definition notSep (c : num) : bool := negb (isPathSeparator c).

(** The "try to match a root" part of [resolve]:
    [(rootEnd, device, isAbsolute)]. Two leading separators start a
    UNC root [\\server\share]; the prefixes [\\.\] and [\\?\] get no
    treatment of their own here, as in the releases of Node of the
    time of the extension (later ones read them as a device root). *)
Definition resolve_root (path : string) : Z * string * bool :=
  let len := len path in
  let code := charCodeAt path 0 in
  if len =? 1 then
    if isPathSeparator code then (1, EmptyString, true)
    else (0, EmptyString, false)
  else if isPathSeparator code then
    if isPathSeparator (charCodeAt path 1) then
      let last := 2 in
      let j := skip_while notSep path (String.length path) 2 in
      if (j <? len) && negb (j =? last) then
        let firstPart := slice path last j in
        let last := j in
        let j := skip_while isPathSeparator path (String.length path) j in
        if (j <? len) && negb (j =? last) then
          let last := j in
          let j := skip_while notSep path (String.length path) j in
          if (j =? len) || negb (j =? last) then
            (j, "\\" ++ firstPart ++ "\" ++ slice path last j, true)
          else (0, EmptyString, true)
        else (0, EmptyString, true)
      else (0, EmptyString, true)
    else (1, EmptyString, true)
  else if isWindowsDeviceRoot code
          && is_code (charCodeAt path 1) CHAR_COLON then
    let device := slice path 0 2 in
    if (len >? 2) && isPathSeparator (charCodeAt path 2)
    then (3, device, true)
    else (2, device, false)
  else (0, EmptyString, false).

(** The local variables of [resolve] that live across turns. *)
Record rstate : Type := {
  resolvedDevice : string;
  resolvedTail : string;
  resolvedAbsolute : bool
}.

(** The part of a turn of [resolve]'s loop after [path] has been
    chosen; the boolean says whether the turn ended in [break]. *)
Definition resolve_turn (path : string) (st : rstate) : rstate * bool :=
  let '(rootEnd, device, isAbsolute) := resolve_root path in
  let skip :=
    (len device >? 0) && (len (resolvedDevice st) >? 0)
    && negb (String.eqb (toLowerCase device)
                        (toLowerCase (resolvedDevice st))) in
  if skip then (st, false)
  else
    let resolvedDevice :=
      if (len device >? 0) && negb (len (resolvedDevice st) >? 0)
      then device else resolvedDevice st in
    if resolvedAbsolute st then
      ({| resolvedDevice := resolvedDevice;
          resolvedTail := resolvedTail st;
          resolvedAbsolute := true |},
       len resolvedDevice >? 0)
    else
      ({| resolvedDevice := resolvedDevice;
          resolvedTail :=
            slice_from path rootEnd ++ "\" ++ resolvedTail st;
          resolvedAbsolute := isAbsolute |},
       isAbsolute && (len resolvedDevice >? 0)).

Section WithProcess.
Variable process : Process.

(** The path the turn [i = -1] works on: the current directory of
    the process or of the drive already resolved. *)
Definition fallback_path (st : rstate) : result string :=
  if len (resolvedDevice st) =? 0 then cwd process
  else
    try! path <-
      match env process ("=" ++ resolvedDevice st) with
      | Some v => if len v =? 0 then cwd process else Ok v
      | None => cwd process
      end;
    if negb (String.eqb (toLowerCase (slice path 0 2))
                        (toLowerCase (resolvedDevice st)))
       && is_code (charCodeAt path 2) CHAR_BACKWARD_SLASH
    then Ok (resolvedDevice st ++ "\")
    else Ok path.

Fixpoint resolve_loop (rev_args : list string) (st : rstate)
  : result rstate :=
  match rev_args with
  | path :: rest =>
      if len path =? 0 then resolve_loop rest st
      else
        let '(st', stop) := resolve_turn path st in
        if stop then Ok st' else resolve_loop rest st'
  | [] =>
      try! path <- fallback_path st;
      Ok (fst (resolve_turn path st))
  end.

Definition resolve (args : list string) : result string :=
  try! st <-
    resolve_loop (rev args)
      {| resolvedDevice := EmptyString; resolvedTail := EmptyString;
         resolvedAbsolute := false |};
  let resolvedTail :=
    normalizeString (resolvedTail st) (negb (resolvedAbsolute st))
                    "\" isPathSeparator in
  if resolvedAbsolute st
  then Ok (resolvedDevice st ++ "\" ++ resolvedTail)
  else
    let r := resolvedDevice st ++ resolvedTail in
    Ok (if len r =? 0 then "." else r).

Definition isBackslash (c : num) : bool :=
  is_code c CHAR_BACKWARD_SLASH.

(** [while (e - 1 > start && s.charCodeAt(e - 1) === '\') e--] *)
Fixpoint trim_end (s : string) (start : Z) (n : nat) (e : Z) : Z :=
  match n with
  | O => e
  | S n' =>
      if (e - 1 >? start) && isBackslash (charCodeAt s (e - 1))
      then trim_end s start n' (e - 1)
      else e
  end.

Fixpoint common_loop (from to : string) (fromStart toStart : Z)
         (n : nat) (i lastCommonSep : Z) : Z * Z :=
  match n with
  | O => (i, lastCommonSep)
  | S n' =>
      let fromCode := charCodeAt from (fromStart + i) in
      if negb (strict_eq fromCode (charCodeAt to (toStart + i)))
      then (i, lastCommonSep)
      else if is_code fromCode CHAR_BACKWARD_SLASH
      then common_loop from to fromStart toStart n' (i + 1) i
      else common_loop from to fromStart toStart n' (i + 1)
                       lastCommonSep
  end.

Fixpoint up_loop (from : string) (fromEnd : Z) (n : nat) (i : Z)
         (out : string) : string :=
  match n with
  | O => out
  | S n' =>
      let out :=
        if (i =? fromEnd)
           || is_code (charCodeAt from i) CHAR_BACKWARD_SLASH
        then out ++ (if len out =? 0 then ".." else "\..")
        else out in
      up_loop from fromEnd n' (i + 1) out
  end.

Definition relative (from to : string) : result string :=
  if String.eqb from to then Ok EmptyString
  else
    try! fromOrig <- resolve [from];
    try! toOrig <- resolve [to];
    if String.eqb fromOrig toOrig then Ok EmptyString
    else
      let from := toLowerCase fromOrig in
      let to := toLowerCase toOrig in
      if String.eqb from to then Ok EmptyString
      else
        let fromStart :=
          skip_while isBackslash from (String.length from) 0 in
        let fromEnd :=
          trim_end from fromStart (String.length from) (len from) in
        let fromLen := fromEnd - fromStart in
        let toStart :=
          skip_while isBackslash to (String.length to) 0 in
        let toEnd :=
          trim_end to toStart (String.length to) (len to) in
        let toLen := toEnd - toStart in
        let length := if fromLen <? toLen then fromLen else toLen in
        let '(i, lastCommonSep) :=
          common_loop from to fromStart toStart (Z.to_nat length)
                      0 (-1) in
        let tail (lastCommonSep : Z) : result string :=
          let out :=
            up_loop from fromEnd
              (Z.to_nat (fromEnd - (fromStart + lastCommonSep + 1) + 1))
              (fromStart + lastCommonSep + 1) EmptyString in
          let toStart := toStart + lastCommonSep in
          if len out >? 0
          then Ok (out ++ slice toOrig toStart toEnd)
          else
            let toStart :=
              if is_code (charCodeAt toOrig toStart) CHAR_BACKWARD_SLASH
              then toStart + 1 else toStart in
            Ok (slice toOrig toStart toEnd) in
        if negb (i =? length) then
          if lastCommonSep =? -1 then Ok toOrig
          else tail lastCommonSep
        else
          let base :=
            (toLen >? length)
            && is_code (charCodeAt to (toStart + i))
                       CHAR_BACKWARD_SLASH in
          let root := (toLen >? length) && (i =? 2) in
          if base then Ok (slice_from toOrig (toStart + i + 1))
          else if root then Ok (slice_from toOrig (toStart + i))
          else
            let lastCommonSep :=
              if fromLen >? length then
                if is_code (charCodeAt from (fromStart + i))
                           CHAR_BACKWARD_SLASH
                then i
                else if i =? 2 then 3
                else lastCommonSep
              else lastCommonSep in
            let lastCommonSep :=
              if lastCommonSep =? -1 then 0 else lastCommonSep in
            tail lastCommonSep.
End WithProcess.

Fixpoint dirname_loop (path : string) (offset : Z) (n : nat) (i : Z)
         (matchedSlash : bool) : option Z :=
  match n with
  | O => None
  | S n' =>
      if isPathSeparator (charCodeAt path i) then
        if negb matchedSlash then Some i
        else dirname_loop path offset n' (i - 1) matchedSlash
      else dirname_loop path offset n' (i - 1) false
  end.

(** The "try to match a root" part of [dirname]: [inl path] is the
    early [return path]; otherwise [rootEnd], which [offset]
    equals whenever a root was matched. *)
Definition dirname_root (path : string) : string + Z :=
  let len := len path in
  let code := charCodeAt path 0 in
  if isPathSeparator code then
    if isPathSeparator (charCodeAt path 1) then
      let last := 2 in
      let j := skip_while notSep path (String.length path) 2 in
      if (j <? len) && negb (j =? last) then
        let last := j in
        let j := skip_while isPathSeparator path (String.length path) j in
        if (j <? len) && negb (j =? last) then
          let last := j in
          let j := skip_while notSep path (String.length path) j in
          if j =? len then inl path
          else if negb (j =? last) then inr (j + 1)
          else inr 1
        else inr 1
      else inr 1
    else inr 1
  else if isWindowsDeviceRoot code
          && is_code (charCodeAt path 1) CHAR_COLON then
    inr (if (len >? 2) && isPathSeparator (charCodeAt path 2)
         then 3 else 2)
  else inr (-1).

Definition dirname (path : string) : string :=
  let len := len path in
  if len =? 0 then "."
  else if len =? 1 then
    if isPathSeparator (charCodeAt path 0) then path else "."
  else
    match dirname_root path with
    | inl p => p
    | inr rootEnd =>
        let offset := if rootEnd =? -1 then 0 else rootEnd in
        match dirname_loop path offset (Z.to_nat (len - offset))
                           (len - 1) true
        with
        | Some e => slice path 0 e
        | None =>
            if rootEnd =? -1 then "." else slice path 0 rootEnd
        end
    end.
End win32.
End NodePath.

(** The interface of the [path] module, as far as the extension uses
    it, and the binding that Node chooses from the host platform. *)
Record PathModule : Type := {
  relative : string -> string -> result string;
  dirname : string -> string
}.

Inductive Platform : Type := Posix | Win32.

Definition path_of (platform : Platform) (process : Process) : PathModule :=
  match platform with
  | Posix =>
      {| relative := NodePath.posix.relative process;
         dirname := NodePath.posix.dirname |}
  | Win32 =>
      {| relative := NodePath.win32.relative process;
         dirname := NodePath.win32.dirname |}
  end.

(** ** Data of the extension and of the editor API *)

(** [vscode.Position] and [vscode.Range]. *)
Record Position : Type := { line : Z; character : Z }.
Record Range : Type := { range_start : Position; range_end : Position }.

(** [QueryLocation]: where a rule is declared. *)
Record QueryLocation : Type := { range : Range }.

(** A rule of a query result, as far as the provider reads it. *)
Record Rule : Type := {
  name : string;
  ruleClass : string;
  location : QueryLocation
}.

Record QueryResult : Type := { rules : list Rule }.

(** [new BazelQuery(workspaceRoot, query, options)] *)
Record BazelQuery : Type := {
  workspaceRoot : string;
  query : string;
  options : list string
}.

(** [new CodeLensCommandAdapter(workspaceFolder, targets)] *)
Record CodeLensCommandAdapter : Type := {
  workspaceFolder : string;
  targets : list string
}.

(** [vscode.Command] *)
Record Command : Type := {
  arguments : list CodeLensCommandAdapter;
  command : string;
  title : string;
  tooltip : string
}.

(** [new vscode.CodeLens(range, command)] *)
Record CodeLens : Type := {
  lens_range : Range;
  lens_command : Command
}.

(** ** Effects *)

(** The two methods of [BazelQuery] that the extension calls. *)
Inductive QueryMethod : Type := RunAndParse | QueryTargets.

(** What a call leaves behind in the world: a warning shown to the
    user, or a query run by the query client. *)
Inductive Event : Type :=
| ShowWarningMessage (msg : string)
| RunQuery (method : QueryMethod) (q : BazelQuery).

Definition Trace : Type := list Event.

(** A computation of the extension: from the events so far to its
    outcome and the events after it. For an [async] function the
    outcome is the settled state of the promise it returns. *)
Definition M (A : Type) : Type := Trace -> result A * Trace.

Definition ret {A : Type} (a : A) : M A := fun tr => (Ok a, tr).

Definition bind {A B : Type} (m : M A) (k : A -> M B) : M B :=
  fun tr =>
    match m tr with
    | (Ok a, tr') => k a tr'
    | (Throw e, tr') => (Throw e, tr')
    end.

(** A synchronous expression that may throw, inside a computation. *)
Definition lift {A : Type} (r : result A) : M A := fun tr => (r, tr).

Definition emit (ev : Event) : M unit := fun tr => (Ok tt, (tr ++ [ev])%list).

Declare Scope comp_scope.
Delimit Scope comp_scope with comp.
Notation "'let!' x <- m ; k" := (bind m (fun x => k))
  (at level 10, x name, m at level 100, k at level 200) : comp_scope.
Notation "m ;; k" := (bind m (fun _ => k))
  (at level 100, k at level 200, right associativity) : comp_scope.
Open Scope comp_scope.

(** The collaborators of the extension that live outside the files
    embedded here. *)
Record Host : Type := {
  (** the [path] module of the host platform *)
  path : PathModule;
  (** [getBazelWorkspaceFolder]: the workspace root of a file, [None]
      for [undefined] *)
  getBazelWorkspaceFolder : string -> option string;
  (** the query client: how the promise of a [BazelQuery] method
      settles, given the events so far *)
  queryClient : Trace -> QueryMethod -> BazelQuery -> result QueryResult
}.

(** ** The extension *)

(** The constant [pkg] of [getTargetsForBuildFile] (lines 32-41) and,
    by the same statements, of [provideCodeLenses] (lines 43-52), for
    the [path] module in use. *)
Definition packageLabel (path : PathModule) (workspace buildFile : string)
  : result string :=
  try! relPathToDoc <- relative path workspace buildFile;
  let relDirWithDoc := dirname path relPathToDoc in
  let relDirWithDoc :=
    if String.eqb relDirWithDoc "." then EmptyString else relDirWithDoc in
  let pkg := "//" ++ relDirWithDoc in
  Ok pkg.

Section Extension.
Variable host : Host.

(** [await new BazelQuery(...).method()] *)
Definition await_query (method : QueryMethod) (q : BazelQuery)
  : M QueryResult :=
  fun tr =>
    (queryClient host tr method q, (tr ++ [RunQuery method q])%list).

Definition showWarningMessage (msg : string) : M unit :=
  emit (ShowWarningMessage msg).

(** [src/bazel/bazel_utils.ts] *)
Definition getTargetsForBuildFile (workspace buildFile : string)
  : M QueryResult :=
  let! pkg <- lift (packageLabel (path host) workspace buildFile);
  let! queryResult <-
    await_query QueryTargets
      {| workspaceRoot := workspace;
         query := "'kind(rule, " ++ pkg ++ ":all)'";
         options := [] |};
  ret queryResult.

(** The body of the [for] loop of [addCodeLens]: the lens pushed for
    one rule. *)
Definition addCodeLens_lens (bazelWorkspaceDirectory : string) (rule : Rule)
  : CodeLens :=
  let loc := location rule in
  let target := name rule in
  let cmd :=
    if JS.endsWith (ruleClass rule) "_test" then
      {| arguments :=
           [ {| workspaceFolder := bazelWorkspaceDirectory;
                targets := [target] |} ];
         command := "bazel.testTarget";
         title := "Test " ++ target;
         tooltip := "Build " ++ target |}
    else
      {| arguments :=
           [ {| workspaceFolder := bazelWorkspaceDirectory;
                targets := [target] |} ];
         command := "bazel.buildTarget";
         title := "Build " ++ target;
         tooltip := "Build " ++ target |} in
  {| lens_range := range loc; lens_command := cmd |}.

(** [for (const rule of queryResult.rules) { ...; result.push(...) }] *)
Fixpoint addCodeLens_loop (bazelWorkspaceDirectory : string)
         (rs : list Rule) (result : list CodeLens) : list CodeLens :=
  match rs with
  | [] => result
  | rule :: rest =>
      addCodeLens_loop bazelWorkspaceDirectory rest
        (result ++ [addCodeLens_lens bazelWorkspaceDirectory rule])%list
  end.

Definition addCodeLens (bazelWorkspaceDirectory : string)
           (queryResult : QueryResult) : list CodeLens :=
  addCodeLens_loop bazelWorkspaceDirectory (rules queryResult) [].

Definition workspace_warning : string :=
  "Bazel BUILD CodeLens unavailable as currently opened file is not in "
  ++ "a Bazel workspace".

(** [BazelBuildCodeLensProvider.provideCodeLenses]; [fsPath] is
    [document.uri.fsPath], the only part of its arguments that it
    reads. *)
Definition provideCodeLenses (fsPath : string) : M (list CodeLens) :=
  match getBazelWorkspaceFolder host fsPath with
  | None =>
      showWarningMessage workspace_warning ;;
      ret []
  | Some workspace =>
      let! pkg <- lift (packageLabel (path host) workspace fsPath);
      let! queryResult <-
        await_query RunAndParse
          {| workspaceRoot := workspace;
             query := "'kind(rule, " ++ pkg ++ ":all)'";
             options := [] |};
      ret (addCodeLens workspace queryResult)
  end.
End Extension.

(** ** Notions used to state the properties *)

(** [k] consecutive turns of [normalizeString]'s loop inside the
    string, starting at index [i]. *)
Fixpoint normalize_steps (path : string) (allowAboveRoot : bool)
         (separator : string) (isSep : JS.num -> bool)
         (k : nat) (i : Z) (st : NodePath.nstate) : NodePath.nstate :=
  match k with
  | O => st
  | S k' =>
      normalize_steps path allowAboveRoot separator isSep k' (i + 1)
        (NodePath.normalize_step path allowAboveRoot separator isSep
           i (JS.charCodeAt path i) st)
  end.

(** A string without any forward slash. *)
Fixpoint no_slash (s : string) : bool :=
  match s with
  | EmptyString => true
  | String c s' =>
      negb (JS.code_of c =? NodePath.CHAR_FORWARD_SLASH) && no_slash s'
  end.

(** A plain path segment: not empty, no slash inside, and no dot in
    front (so neither ["."] nor [".."]). *)
Definition plain_segment (s : string) : bool :=
  match s with
  | EmptyString => false
  | String c _ => negb (JS.code_of c =? NodePath.CHAR_DOT) && no_slash s
  end.

(** The segments joined by forward slashes: [a/b/c]. *)
Fixpoint join_slash (segs : list string) : string :=
  match segs with
  | [] => EmptyString
  | [seg] => seg
  | seg :: rest => seg ++ "/" ++ join_slash rest
  end.

(** Every segment followed by a forward slash: [a/b/c/]. *)
Fixpoint slash_each (segs : list string) : string :=
  match segs with
  | [] => EmptyString
  | seg :: rest => seg ++ "/" ++ slash_each rest
  end.

(** What [normalizeString] appends to [r] for the segments. *)
Fixpoint join_onto (r : string) (segs : list string) : string :=
  match segs with
  | [] => r
  | seg :: rest =>
      join_onto (if JS.len r >? 0 then r ++ "/" ++ seg else seg) rest
  end.

(** An absolute POSIX path starts with a forward slash. *)
Definition posix_absolute (p : string) : bool :=
  JS.is_code (JS.charCodeAt p 0) NodePath.CHAR_FORWARD_SLASH.

(** A fully qualified Windows path names its drive or share and is
    absolute: [C:\ws], [\\server\share\ws]. *)
Definition win32_qualified (p : string) : bool :=
  let '(_, device, isAbsolute) := NodePath.win32.resolve_root p in
  isAbsolute && (JS.len device >? 0).

Definition fully_qualified (platform : Platform) (p : string) : bool :=
  match platform with
  | Posix => posix_absolute p
  | Win32 => win32_qualified p
  end.

(** The characters that separate path segments on a platform. *)
Definition is_separator (platform : Platform) (c : ascii) : bool :=
  match platform with
  | Posix => NodePath.isPosixPathSeparator (Some (JS.code_of c))
  | Win32 => NodePath.isPathSeparator (Some (JS.code_of c))
  end.

(** The only separator among the characters of the string is the
    forward slash. *)
Fixpoint only_forward_slashes (platform : Platform) (s : string) : bool :=
  match s with
  | EmptyString => true
  | String c s' =>
      (negb (is_separator platform c) || Ascii.eqb c "/"%char)
      && only_forward_slashes platform s'
  end.

(** ** Notions for Windows paths *)

(** A string without forward slash, backslash or colon. *)
Fixpoint no_win_special (s : string) : bool :=
  match s with
  | EmptyString => true
  | String c s' =>
      negb (NodePath.isPathSeparator (Some (JS.code_of c)))
      && negb (JS.code_of c =? NodePath.CHAR_COLON)
      && no_win_special s'
  end.

(** A plain segment of a Windows path: not empty, no separator and no
    colon inside, and no dot in front. *)
Definition win_plain_segment (s : string) : bool :=
  match s with
  | EmptyString => false
  | String c _ => negb (JS.code_of c =? NodePath.CHAR_DOT) && no_win_special s
  end.

(** The segments joined by backslashes: [a\b\c]. *)
Fixpoint join_backslash (segs : list string) : string :=
  match segs with
  | [] => EmptyString
  | [seg] => seg
  | seg :: rest => seg ++ "\" ++ join_backslash rest
  end.

(** Every segment followed by a backslash: [a\b\c\]. *)
Fixpoint backslash_each (segs : list string) : string :=
  match segs with
  | [] => EmptyString
  | seg :: rest => seg ++ "\" ++ backslash_each rest
  end.

(** The root directory of a drive: [C:\]. *)
Definition drive_root (d : ascii) : string :=
  String d (String ":"%char (String "\"%char EmptyString)).

(** A string of ASCII characters. *)
Fixpoint ascii_only (s : string) : bool :=
  match s with
  | EmptyString => true
  | String c s' => (JS.code_of c <? 128) && ascii_only s'
  end.

(** A plain segment written in ASCII, where [JS.toLowerCase] is the
    runtime's function. *)
Definition win_ascii_segment (s : string) : bool :=
  win_plain_segment s && ascii_only s.

(** A drive letter. *)
Definition drive_letter (d : ascii) : bool :=
  NodePath.isWindowsDeviceRoot (Some (JS.code_of d)).

(** ** Values used in the examples *)

(** A process whose current directory is gone: [process.cwd()]
    throws. *)
Definition no_process : Process :=
  {| cwd := Throw (mkError "ENOENT: process.cwd failed");
     env := fun _ => None |}.

(** A process with a current directory and with every environment
    variable set. *)
Definition other_process : Process :=
  {| cwd := Ok "/var/tmp";
     env := fun _ => Some "/var/tmp" |}.

(** A process that runs in the root directory. *)
Definition root_process : Process :=
  {| cwd := Ok "/"; env := fun _ => None |}.

Definition example_range : Range :=
  {| range_start := {| line := 3; character := 0 |};
     range_end := {| line := 7; character := 1 |} |}.

Definition rule_t : Rule :=
  {| name := "//a/b:t"; ruleClass := "go_test";
     location := {| range := example_range |} |}.

Definition rule_m : Rule :=
  {| name := "//a/b:m"; ruleClass := "go_binary";
     location := {| range := example_range |} |}.

(** A host on a POSIX platform. *)
Definition posix_host (gwf : string -> option string)
           (qc : Trace -> QueryMethod -> BazelQuery -> result QueryResult)
  : Host :=
  {| path := path_of Posix no_process;
     getBazelWorkspaceFolder := gwf;
     queryClient := qc |}.

Definition bazel_failed : Error := mkError "bazel exited with code 7".

(** ** Events of a trace *)

Definition is_warning (ev : Event) : bool :=
  match ev with ShowWarningMessage _ => true | RunQuery _ _ => false end.

Definition is_query (ev : Event) : bool :=
  match ev with ShowWarningMessage _ => false | RunQuery _ _ => true end.

(** * Properties *)

(** ** Facts about the string primitives *)

Module JSFacts.
Import JS.

Lemma length_app (a b : string) :
  String.length (a ++ b) = (String.length a + String.length b)%nat.
Proof. induction a as [|c a IH]; simpl; [reflexivity | now rewrite IH]. Qed.

Lemma len_app (a b : string) : len (a ++ b) = len a + len b.
Proof. unfold len. rewrite length_app. lia. Qed.

Lemma len_nonneg (s : string) : 0 <= len s.
Proof. unfold len. lia. Qed.

Lemma app_assoc (a b c : string) : (a ++ b) ++ c = a ++ b ++ c.
Proof. induction a as [|x a IH]; simpl; [reflexivity | now rewrite IH]. Qed.

Lemma app_empty_r (a : string) : a ++ EmptyString = a.
Proof. induction a as [|x a IH]; simpl; [reflexivity | now rewrite IH]. Qed.

Lemma get_app_l (a b : string) (n : nat) :
  (n < String.length a)%nat -> get n (a ++ b) = get n a.
Proof.
  revert n. induction a as [|c a IH]; simpl; intros n Hn; [lia|].
  destruct n as [|n]; [reflexivity|]. apply IH. lia.
Qed.

Lemma get_app_r (a b : string) (n : nat) :
  get (String.length a + n) (a ++ b) = get n b.
Proof. induction a as [|c a IH]; simpl; [reflexivity | exact IH]. Qed.

Lemma substring_app_l (a b : string) (n m : nat) :
  (n + m <= String.length a)%nat ->
  substring n m (a ++ b) = substring n m a.
Proof.
  revert n m. induction a as [|c a IH]; simpl; intros n m H.
  - assert (n = 0%nat) by lia. assert (m = 0%nat) by lia. subst.
    destruct b; reflexivity.
  - destruct n as [|n].
    + destruct m as [|m]; [reflexivity|]. f_equal. apply IH. simpl; lia.
    + apply IH. lia.
Qed.

Lemma substring_app_r (a b : string) (n m : nat) :
  substring (String.length a + n) m (a ++ b) = substring n m b.
Proof. induction a as [|c a IH]; simpl; [reflexivity | exact IH]. Qed.

Lemma substring_all (s : string) : substring 0 (String.length s) s = s.
Proof. induction s as [|c s IH]; simpl; [reflexivity | now rewrite IH]. Qed.

Lemma substring_split (s : string) (n : nat) :
  (n <= String.length s)%nat ->
  substring 0 n s ++ substring n (String.length s - n) s = s.
Proof.
  revert n. induction s as [|c s IH]; simpl; intros n H.
  - assert (n = 0%nat) by lia. subst. reflexivity.
  - destruct n as [|n]; simpl.
    + now rewrite substring_all.
    + f_equal. apply IH. lia.
Qed.

Lemma charCodeAt_app_l (a b : string) (i : Z) :
  0 <= i < len a -> charCodeAt (a ++ b) i = charCodeAt a i.
Proof.
  unfold charCodeAt, len. intros H.
  destruct (i <? 0) eqn:E; [lia|].
  rewrite get_app_l by lia. reflexivity.
Qed.

Lemma charCodeAt_app_r (a b : string) (i : Z) :
  0 <= i -> charCodeAt (a ++ b) (len a + i) = charCodeAt b i.
Proof.
  unfold charCodeAt, len. intros H.
  destruct (Z.of_nat (String.length a) + i <? 0) eqn:E; [lia|].
  destruct (i <? 0) eqn:E'; [lia|].
  replace (Z.to_nat (Z.of_nat (String.length a) + i))
    with (String.length a + Z.to_nat i)%nat by lia.
  now rewrite get_app_r.
Qed.

Lemma get_in_range (s : string) (n : nat) :
  (n < String.length s)%nat -> exists c, get n s = Some c.
Proof.
  revert n. induction s as [|c s IH]; simpl; intros n Hn; [lia|].
  destruct n as [|n]; [now exists c|]. apply IH. lia.
Qed.

Lemma charCodeAt_in_range (s : string) (i : Z) :
  0 <= i < len s -> exists c, charCodeAt s i = Some c.
Proof.
  unfold charCodeAt, len. intros H.
  destruct (i <? 0) eqn:E; [lia|].
  destruct (get_in_range s (Z.to_nat i)) as [c Hc]; [lia|].
  rewrite Hc. now eexists.
Qed.

Lemma slice_app_l (a b : string) (x y : Z) :
  0 <= x <= y -> y <= len a -> slice (a ++ b) x y = slice a x y.
Proof.
  intros H1 H2. unfold slice, clamp. rewrite len_app.
  pose proof (len_nonneg b).
  destruct (x <? 0) eqn:Ex; [lia|]. destruct (y <? 0) eqn:Ey; [lia|].
  rewrite !Z.min_l by lia.
  apply substring_app_l. unfold len in *. lia.
Qed.

Lemma slice_app_r (a b : string) (x y : Z) :
  0 <= x -> 0 <= y ->
  slice (a ++ b) (len a + x) (len a + y) = slice b x y.
Proof.
  intros H1 H2. unfold slice, clamp. rewrite len_app.
  pose proof (len_nonneg a). pose proof (len_nonneg b).
  destruct (len a + x <? 0) eqn:E1; [lia|].
  destruct (len a + y <? 0) eqn:E2; [lia|].
  destruct (x <? 0) eqn:E3; [lia|]. destruct (y <? 0) eqn:E4; [lia|].
  replace (Z.min (len a + x) (len a + len b))
    with (len a + Z.min x (len b)) by lia.
  replace (Z.min (len a + y) (len a + len b))
    with (len a + Z.min y (len b)) by lia.
  replace (Z.to_nat (len a + Z.min x (len b)))
    with (String.length a + Z.to_nat (Z.min x (len b)))%nat
    by (unfold len; lia).
  rewrite substring_app_r. f_equal. lia.
Qed.

Lemma slice_from_app_r (a b : string) (x : Z) :
  0 <= x -> slice_from (a ++ b) (len a + x) = slice_from b x.
Proof.
  intros H. unfold slice_from. rewrite len_app.
  apply slice_app_r; [assumption | apply len_nonneg].
Qed.

Lemma slice_from_0 (s : string) : slice_from s 0 = s.
Proof.
  unfold slice_from, slice, clamp. pose proof (len_nonneg s).
  simpl. destruct (len s <? 0) eqn:E; [lia|].
  rewrite Z.min_l, Z.min_id by lia. simpl. rewrite Z.sub_0_r.
  unfold len. rewrite Nat2Z.id. apply substring_all.
Qed.

Lemma eqb_len_neq (a b : string) : len a <> len b -> String.eqb a b = false.
Proof.
  intros H. apply String.eqb_neq. intros ->. now apply H.
Qed.

(** [endsWith] says what its name says. *)
Lemma endsWith_app (p suffix : string) : endsWith (p ++ suffix) suffix = true.
Proof.
  unfold endsWith. rewrite len_app.
  pose proof (len_nonneg p). pose proof (len_nonneg suffix).
  apply andb_true_intro; split; [apply Z.leb_le; lia|].
  replace (len p + len suffix - len suffix) with (len p + 0) by lia.
  rewrite slice_from_app_r by lia. rewrite slice_from_0.
  apply String.eqb_refl.
Qed.

Lemma endsWith_inv (s suffix : string) :
  endsWith s suffix = true -> exists p, s = p ++ suffix.
Proof.
  unfold endsWith. intros H. apply andb_prop in H. destruct H as [Hl He].
  apply Z.leb_le in Hl. apply String.eqb_eq in He.
  exists (substring 0 (String.length s - String.length suffix) s).
  rewrite <- He at 2. unfold slice_from, slice, clamp.
  pose proof (len_nonneg suffix).
  destruct (len s - len suffix <? 0) eqn:E1; [lia|].
  destruct (len s <? 0) eqn:E2; [lia|].
  rewrite Z.min_id, Z.min_l by lia.
  replace (Z.to_nat (len s - len suffix))
    with (String.length s - String.length suffix)%nat by (unfold len; lia).
  replace (Z.to_nat (len s - (len s - len suffix)))
    with (String.length s - (String.length s - String.length suffix))%nat
    by (unfold len in *; lia).
  symmetry. apply substring_split. lia.
Qed.

Lemma endsWith_iff (s suffix : string) :
  endsWith s suffix = true <-> exists p, s = p ++ suffix.
Proof.
  split; [apply endsWith_inv|]. intros [p ->]. apply endsWith_app.
Qed.
End JSFacts.

(** ** Facts about [normalizeString] *)

Module PathFacts.
Import JS NodePath JSFacts.

Section Steps.
Variable allowAboveRoot : bool.
Variable separator : string.
Variable isSep : num -> bool.

#[local] Abbreviation steps p :=
  (normalize_steps p allowAboveRoot separator isSep).
#[local] Abbreviation step p :=
  (normalize_step p allowAboveRoot separator isSep).
#[local] Abbreviation loop p :=
  (normalize_loop p allowAboveRoot separator isSep).

Lemma steps_add (p : string) (j k : nat) (i : Z) (st : nstate) :
  steps p (j + k) i st = steps p k (i + Z.of_nat j) (steps p j i st).
Proof.
  revert i st. induction j as [|j IH]; intros i st.
  - simpl. now rewrite Z.add_0_r.
  - change (S j + k)%nat with (S (j + k)). cbn [normalize_steps].
    rewrite IH. f_equal. lia.
Qed.

(** A turn on a separator leaves [lastSlash = i] and [dots = 0]. *)
Lemma step_on_sep (p : string) (i : Z) (code : num) (st : nstate) :
  isSep code = true ->
  lastSlash (step p i code st) = i /\ dots (step p i code st) = 0.
Proof.
  intros H. unfold normalize_step, above_root. rewrite H.
  repeat match goal with
         | |- context [if ?b then _ else _] => destruct b
         end; simpl; auto.
Qed.

Lemma step_lastSlash (p : string) (i : Z) (code : num) (st : nstate) :
  -1 <= lastSlash st < i -> -1 <= lastSlash (step p i code st) < i + 1.
Proof.
  intros H. unfold normalize_step, above_root.
  repeat match goal with
         | |- context [if ?b then _ else _] => destruct b
         end; simpl; lia.
Qed.

(** A turn reads the path only before its index. *)
Lemma step_prefix (pre suf : string) (i : Z) (code : num) (st : nstate) :
  -1 <= lastSlash st < i -> i <= len pre ->
  step (pre ++ suf) i code st = step pre i code st.
Proof.
  intros H1 H2. unfold normalize_step.
  rewrite slice_app_l by lia. reflexivity.
Qed.

Lemma steps_prefix (pre suf : string) (k : nat) (i : Z) (st : nstate) :
  -1 <= lastSlash st < i -> i + Z.of_nat k <= len pre ->
  steps (pre ++ suf) k i st = steps pre k i st.
Proof.
  revert i st. induction k as [|k IH]; intros i st H1 H2; [reflexivity|].
  simpl. rewrite charCodeAt_app_l by lia.
  rewrite step_prefix by lia.
  apply IH; [apply step_lastSlash; assumption | lia].
Qed.

(** On a path that ends with a separator the loop is its turns
    inside the string: the extra turn at the end breaks. *)
Lemma loop_steps (p : string) (k : nat) (i : Z) (c : num) (st : nstate) :
  isSep (charCodeAt p (len p - 1)) = true ->
  (k = 0%nat -> isSep c = true) ->
  i + Z.of_nat k = len p ->
  loop p (S k) i c st = res (steps p k i st).
Proof.
  intros Hlast. revert i c st.
  induction k as [|k IH]; intros i c st Hc Hi.
  - simpl. destruct (i <? len p) eqn:E; [lia|].
    now rewrite Hc.
  - cbn [normalize_loop normalize_steps].
    destruct (i <? len p) eqn:E; [|lia].
    apply IH; [|lia]. intros ->.
    replace i with (len p - 1) by lia. exact Hlast.
Qed.
End Steps.
End PathFacts.

(** ** The POSIX flavour on absolute paths *)

Module PosixFacts.
Import JS NodePath JSFacts PathFacts.

#[local] Abbreviation psteps p :=
  (normalize_steps p false "/" isPosixPathSeparator).
#[local] Abbreviation pstep p :=
  (normalize_step p false "/" isPosixPathSeparator).

Lemma charCodeAt_head (c : ascii) (s : string) :
  charCodeAt (String c s) 0 = Some (code_of c).
Proof. reflexivity. Qed.

Lemma charCodeAt_mid (pre : string) (c : ascii) (post : string) :
  charCodeAt (pre ++ String c post) (len pre) = Some (code_of c).
Proof.
  rewrite <- (Z.add_0_r (len pre)).
  rewrite charCodeAt_app_r by lia. apply charCodeAt_head.
Qed.

Lemma snoc_app (pre : string) (c : ascii) (post : string) :
  pre ++ String c post = (pre ++ String c EmptyString) ++ post.
Proof. rewrite app_assoc. reflexivity. Qed.

Lemma len_snoc (pre : string) (c : ascii) :
  len (pre ++ String c EmptyString) = len pre + 1.
Proof. rewrite len_app. reflexivity. Qed.

Lemma len_cons (c : ascii) (s : string) : len (String c s) = 1 + len s.
Proof. unfold len. simpl String.length. lia. Qed.

(** Inside a segment that has already shown a character other than a
    dot, nothing changes. *)
Lemma steps_no_slash (seg pre post r : string) (l ls : Z) :
  no_slash seg = true ->
  psteps (pre ++ seg ++ post) (String.length seg) (len pre)
    {| res := r; lastSegmentLength := l; lastSlash := ls; dots := -1 |}
  = {| res := r; lastSegmentLength := l; lastSlash := ls; dots := -1 |}.
Proof.
  revert pre. induction seg as [|c seg IH]; intros pre H; [reflexivity|].
  simpl in H. apply andb_prop in H. destruct H as [Hc Hs].
  cbn [String.length normalize_steps].
  change (String c seg ++ post) with (String c (seg ++ post)).
  rewrite charCodeAt_mid.
  unfold normalize_step at 1. unfold isPosixPathSeparator, is_code, strict_eq.
  cbn [res lastSegmentLength lastSlash dots].
  apply negb_true_iff in Hc. rewrite Hc.
  rewrite Z.eqb_refl. cbn [negb]. rewrite andb_false_r.
  rewrite (snoc_app pre c), <- (len_snoc pre c). apply IH. exact Hs.
Qed.

(** A plain segment and the slash after it: the segment is appended. *)
Lemma steps_segment (seg pre post r : string) (l : Z) :
  plain_segment seg = true ->
  psteps (pre ++ seg ++ "/" ++ post) (S (String.length seg)) (len pre)
    {| res := r; lastSegmentLength := l;
       lastSlash := len pre - 1; dots := 0 |}
  = {| res := if len r >? 0 then r ++ "/" ++ seg else seg;
       lastSegmentLength := len seg;
       lastSlash := len pre + len seg;
       dots := 0 |}.
Proof.
  destruct seg as [|c seg]; [discriminate|]. intros H.
  unfold plain_segment in H. apply andb_prop in H. destruct H as [Hdot Hs].
  pose proof Hs as Hs'. simpl in Hs'. apply andb_prop in Hs'.
  destruct Hs' as [Hc Hseg].
  apply negb_true_iff in Hdot, Hc.
  replace (S (String.length (String c seg)))
    with (1 + (String.length seg + 1))%nat by (simpl; lia).
  rewrite steps_add. cbn [normalize_steps].
  change (String c seg ++ "/" ++ post) with (String c (seg ++ "/" ++ post)).
  rewrite charCodeAt_mid.
  unfold normalize_step at 1. unfold isPosixPathSeparator, is_code, strict_eq.
  cbn [res lastSegmentLength lastSlash dots].
  rewrite Hc, Hdot. cbn [andb].
  rewrite steps_add.
  rewrite (snoc_app pre c). change (Z.of_nat 1) with 1.
  rewrite <- (len_snoc pre c).
  rewrite steps_no_slash by exact Hseg.
  cbn [normalize_steps].
  replace (len (pre ++ String c EmptyString) + Z.of_nat (String.length seg))
    with (len ((pre ++ String c EmptyString) ++ seg))
    by (rewrite len_app; reflexivity).
  rewrite <- (app_assoc _ seg).
  change ("/" ++ post) with (String "/"%char post).
  rewrite charCodeAt_mid.
  unfold normalize_step. unfold isPosixPathSeparator, is_code, strict_eq.
  cbn [res lastSegmentLength lastSlash dots].
  change (code_of "/" =? CHAR_FORWARD_SLASH) with true. cbn match.
  pose proof (len_nonneg pre). pose proof (len_nonneg seg).
  rewrite !len_app. change (len (String c EmptyString)) with 1.
  replace (len pre - 1 =? len pre + 1 + len seg - 1) with false by lia.
  cbn [orb]. change (-1 =? 1) with false. change (-1 =? 2) with false.
  cbn match.
  assert (Hsl : slice (((pre ++ String c EmptyString) ++ seg)
                        ++ String "/"%char post)
                  (len pre - 1 + 1) (len pre + 1 + len seg) = String c seg).
  { rewrite <- snoc_app. rewrite app_assoc.
    replace (len pre - 1 + 1) with (len pre + 0) by lia.
    replace (len pre + 1 + len seg) with (len pre + len (String c seg))
      by (rewrite len_cons; lia).
    rewrite slice_app_r by (try apply len_nonneg; lia).
    rewrite slice_app_l by (pose proof (len_nonneg (String c seg)); lia).
    apply (slice_from_0 (String c seg)). }
  rewrite Hsl. rewrite len_cons. f_equal; lia.
Qed.

Lemma plain_segment_nonempty (seg : string) :
  plain_segment seg = true -> 0 < len seg.
Proof.
  destruct seg; [discriminate|]. intros _. rewrite len_cons.
  pose proof (len_nonneg seg). lia.
Qed.

(** The same for a run of plain segments. *)
Lemma steps_segments (segs : list string) (pre post r : string) (l : Z) :
  forallb plain_segment segs = true ->
  exists l',
    psteps (pre ++ slash_each segs ++ post)
      (String.length (slash_each segs)) (len pre)
      {| res := r; lastSegmentLength := l;
         lastSlash := len pre - 1; dots := 0 |}
    = {| res := join_onto r segs;
         lastSegmentLength := l';
         lastSlash := len pre + len (slash_each segs) - 1;
         dots := 0 |}.
Proof.
  revert pre r l. induction segs as [|seg segs IH]; intros pre r l H.
  - exists l. simpl. now rewrite Z.add_0_r.
  - simpl in H. apply andb_prop in H. destruct H as [Hseg Hsegs].
    cbn [slash_each join_onto].
    replace (String.length (seg ++ "/" ++ slash_each segs))
      with (S (String.length seg) + String.length (slash_each segs))%nat
      by (rewrite !length_app; simpl; lia).
    rewrite steps_add.
    rewrite !app_assoc.
    rewrite steps_segment by exact Hseg.
    destruct (IH (pre ++ seg ++ "/")
                 (if len r >? 0 then r ++ "/" ++ seg else seg)
                 (len seg) Hsegs) as [l' Hl'].
    exists l'.
    rewrite !len_app in *. change (len "/") with 1 in *.
    rewrite !app_assoc in Hl'.
    replace (len pre + Z.of_nat (S (String.length seg)))
      with (len pre + (len seg + 1)) by (unfold len; lia).
    replace (len pre + len seg) with (len pre + (len seg + 1) - 1) by lia.
    rewrite Hl'. f_equal. lia.
Qed.

Lemma join_slash_slash (segs : list string) :
  segs <> [] -> join_slash segs ++ "/" = slash_each segs.
Proof.
  induction segs as [|seg segs IH]; intros H; [congruence|].
  destruct segs as [|seg' segs]; [reflexivity|].
  change (join_slash (seg :: seg' :: segs))
    with (seg ++ "/" ++ join_slash (seg' :: segs)).
  cbn [slash_each] in *. rewrite <- IH by discriminate.
  now rewrite !app_assoc.
Qed.

Lemma join_onto_spec (segs : list string) (r : string) :
  forallb plain_segment segs = true -> segs <> [] ->
  join_onto r segs
  = if len r >? 0 then r ++ "/" ++ join_slash segs else join_slash segs.
Proof.
  revert r. induction segs as [|seg segs IH]; intros r H Hne; [congruence|].
  simpl in H. apply andb_prop in H. destruct H as [Hseg Hsegs].
  pose proof (plain_segment_nonempty seg Hseg) as Hpos.
  cbn [join_onto].
  destruct segs as [|seg' segs]; [reflexivity|].
  rewrite IH by (assumption || discriminate).
  change (join_slash (seg :: seg' :: segs))
    with (seg ++ "/" ++ join_slash (seg' :: segs)).
  pose proof (len_nonneg r).
  destruct (len r >? 0) eqn:E.
  - replace (len (r ++ "/" ++ seg) >? 0) with true
      by (rewrite !len_app; change (len "/") with 1; lia).
    now rewrite !app_assoc.
  - replace (len seg >? 0) with true by lia. reflexivity.
Qed.

Lemma join_slash_head (segs : list string) :
  forallb plain_segment segs = true -> segs <> [] ->
  exists c t, join_slash segs = String c t
              /\ (code_of c =? CHAR_FORWARD_SLASH) = false
              /\ (code_of c =? CHAR_DOT) = false.
Proof.
  destruct segs as [|seg segs]; [congruence|]. intros H _.
  simpl in H. apply andb_prop in H. destruct H as [Hseg _].
  destruct seg as [|c seg]; [discriminate|].
  unfold plain_segment in Hseg. apply andb_prop in Hseg.
  destruct Hseg as [Hd Hs]. simpl in Hs. apply andb_prop in Hs.
  destruct Hs as [Hc _]. apply negb_true_iff in Hc, Hd.
  destruct segs; simpl; eauto.
Qed.

Lemma absolute_nonempty (W : string) :
  posix_absolute W = true -> 0 < len W.
Proof.
  destruct W; [discriminate|]. intros _. rewrite len_cons.
  pose proof (len_nonneg W). lia.
Qed.

Lemma absolute_app (W t : string) :
  posix_absolute W = true -> posix_absolute (W ++ t) = true.
Proof. destruct W; [discriminate|]. intros H. exact H. Qed.

(** [resolve] normalizes an absolute path without asking the process
    for its current directory. *)
Lemma resolve_absolute (process : Process) (W : string) :
  posix_absolute W = true ->
  posix.resolve process [W]
  = Ok ("/" ++ normalizeString (W ++ "/") false "/" isPosixPathSeparator).
Proof.
  intros H. pose proof (absolute_nonempty W H) as Hpos.
  unfold posix.resolve. cbn [rev List.app posix.resolve_loop].
  replace (len W =? 0) with false by lia.
  unfold posix_absolute in H. rewrite H.
  cbn [result_bind negb]. reflexivity.
Qed.

(** The state of the loop after a path that ends with a slash. *)
Lemma steps_dir (W : string) :
  exists l,
    psteps (W ++ "/") (String.length (W ++ "/")) 0
           (normalize_init)
    = {| res := normalizeString (W ++ "/") false "/" isPosixPathSeparator;
         lastSegmentLength := l;
         lastSlash := len (W ++ "/") - 1;
         dots := 0 |}.
Proof.
  assert (Hlast : isPosixPathSeparator
            (charCodeAt (W ++ "/") (len (W ++ "/") - 1)) = true).
  { rewrite len_app. change (len "/") with 1.
    replace (len W + 1 - 1) with (len W) by lia.
    change "/" with (String "/"%char EmptyString) at 1.
    rewrite charCodeAt_mid. reflexivity. }
  assert (Hres : normalizeString (W ++ "/") false "/" isPosixPathSeparator
                 = res (psteps (W ++ "/") (String.length (W ++ "/")) 0
                               normalize_init)).
  { unfold normalizeString. apply loop_steps; [exact Hlast | | reflexivity].
    rewrite length_app. simpl. lia. }
  rewrite Hres.
  remember (psteps (W ++ "/") (String.length (W ++ "/")) 0 normalize_init)
    as st eqn:Hst.
  assert (Hd : lastSlash st = len (W ++ "/") - 1 /\ dots st = 0).
  { subst st. rewrite length_app.
    change (String.length "/") with 1%nat.
    rewrite steps_add. cbn [normalize_steps].
    rewrite len_app. change (len "/") with 1.
    replace (len W + 1 - 1) with (0 + Z.of_nat (String.length W))
      by (unfold len; lia).
    apply step_on_sep.
    replace (0 + Z.of_nat (String.length W)) with (len W)
      by (unfold len; lia).
    change "/" with (String "/"%char EmptyString).
    rewrite charCodeAt_mid. reflexivity. }
  destruct st as [r l ls d]. simpl in Hd. destruct Hd as [-> ->].
  exists l. reflexivity.
Qed.

(** Normalizing a directory followed by plain segments appends the
    segments to the normalized directory. *)
Lemma normalize_child (W : string) (segs : list string) :
  forallb plain_segment segs = true -> segs <> [] ->
  normalizeString ((W ++ "/") ++ slash_each segs) false "/"
                  isPosixPathSeparator
  = join_onto (normalizeString (W ++ "/") false "/" isPosixPathSeparator)
              segs.
Proof.
  intros Hsegs Hne.
  set (pre := W ++ "/").
  assert (Hlast : isPosixPathSeparator
            (charCodeAt (pre ++ slash_each segs)
                        (len (pre ++ slash_each segs) - 1)) = true).
  { rewrite <- (join_slash_slash segs Hne). rewrite <- app_assoc.
    rewrite len_app. change (len "/") with 1.
    replace (len (pre ++ join_slash segs) + 1 - 1)
      with (len (pre ++ join_slash segs)) by lia.
    change "/" with (String "/"%char EmptyString).
    rewrite charCodeAt_mid. reflexivity. }
  unfold normalizeString at 1.
  rewrite loop_steps; [ | exact Hlast | | reflexivity].
  2:{ rewrite length_app. unfold pre. rewrite length_app. simpl. lia. }
  rewrite length_app, steps_add.
  rewrite (steps_prefix _ _ _ pre (slash_each segs) (String.length pre) 0
                         normalize_init).
  2:{ unfold normalize_init. simpl. lia. }
  2:{ unfold len. lia. }
  destruct (steps_dir W) as [l Hl]. fold pre in Hl. rewrite Hl.
  destruct (steps_segments segs pre EmptyString
              (normalizeString pre false "/" isPosixPathSeparator) l Hsegs)
    as [l' Hl'].
  rewrite app_empty_r in Hl'.
  replace (0 + Z.of_nat (String.length pre)) with (len pre)
    by (unfold len; lia).
  rewrite Hl'. reflexivity.
Qed.

Lemma common_loop_S (from to : string) (fs ts : Z) (n : nat) (i lcs : Z) :
  posix.common_loop from to fs ts (S n) i lcs
  = if negb (strict_eq (charCodeAt from (fs + i)) (charCodeAt to (ts + i)))
    then (i, lcs)
    else if is_code (charCodeAt from (fs + i)) CHAR_FORWARD_SLASH
    then posix.common_loop from to fs ts n (i + 1) i
    else posix.common_loop from to fs ts n (i + 1) lcs.
Proof. reflexivity. Qed.

Lemma common_loop_same (R y : string) (n : nat) (i lcs : Z) :
  0 <= i -> i + Z.of_nat n <= len R ->
  fst (posix.common_loop ("/" ++ R) ("/" ++ R ++ y) 1 1 n i lcs)
  = i + Z.of_nat n.
Proof.
  revert i lcs. induction n as [|n IH]; intros i lcs H1 H2.
  - simpl. lia.
  - rewrite common_loop_S.
    rewrite (charCodeAt_app_r "/" R i H1
             : charCodeAt ("/" ++ R) (1 + i) = _).
    rewrite (charCodeAt_app_r "/" (R ++ y) i H1
             : charCodeAt ("/" ++ R ++ y) (1 + i) = _).
    rewrite charCodeAt_app_l by lia.
    destruct (charCodeAt_in_range R i) as [c Hc]; [lia|].
    rewrite Hc. unfold strict_eq at 1. rewrite Z.eqb_refl. cbn [negb].
    destruct (is_code (Some c) CHAR_FORWARD_SLASH);
      rewrite IH by lia; lia.
Qed.

(** From an absolute directory to a path of plain segments below it,
    the relative path is those segments. *)
Lemma relative_child (process : Process) (W : string) (segs : list string) :
  posix_absolute W = true ->
  forallb plain_segment segs = true -> segs <> [] ->
  posix.relative process W (W ++ "/" ++ join_slash segs)
  = Ok (join_slash segs).
Proof.
  intros HW Hsegs Hne.
  set (t := join_slash segs).
  destruct (join_slash_head segs Hsegs Hne) as (c & t' & Ht & Hc & _).
  fold t in Ht.
  pose proof (len_nonneg W). pose proof (len_nonneg t).
  unfold posix.relative.
  rewrite eqb_len_neq
    by (rewrite !len_app; change (len "/") with 1; lia).
  rewrite resolve_absolute by exact HW.
  rewrite resolve_absolute by (apply absolute_app; exact HW).
  replace ((W ++ "/" ++ t) ++ "/") with ((W ++ "/") ++ slash_each segs)
    by (rewrite <- (join_slash_slash segs Hne); fold t;
        now rewrite !app_assoc).
  rewrite normalize_child by assumption.
  rewrite join_onto_spec by assumption. fold t.
  set (R := normalizeString (W ++ "/") false "/" isPosixPathSeparator).
  pose proof (len_nonneg R).
  cbn [result_bind]. cbv zeta.
  destruct (len R >? 0) eqn:ER.
  - assert (Hfrom : len ("/" ++ R) = 1 + len R) by apply len_cons.
    assert (Hto : len ("/" ++ R ++ "/" ++ t) = 1 + len R + 1 + len t).
    { rewrite !len_app. change (len "/") with 1. lia. }
    rewrite eqb_len_neq by lia.
    rewrite Hfrom, Hto.
    replace (1 + len R - 1 <? 1 + len R + 1 + len t - 1) with true by lia.
    replace (1 + len R - 1) with (len R) by lia.
    pose proof (common_loop_same R ("/" ++ t) (Z.to_nat (len R)) 0 (-1))
      as Hcl.
    destruct (posix.common_loop ("/" ++ R) ("/" ++ R ++ "/" ++ t) 1 1
                (Z.to_nat (len R)) 0 (-1)) as [i lcs].
    simpl fst in Hcl. rewrite Hcl by lia.
    replace (0 + Z.of_nat (Z.to_nat (len R))) with (len R) by lia.
    rewrite Z.eqb_refl.
    replace (1 + len R + 1 + len t - 1 >? len R) with true by lia.
    assert (Hsep : charCodeAt ("/" ++ R ++ "/" ++ t) (1 + len R)
                   = Some CHAR_FORWARD_SLASH).
    { rewrite <- Hfrom. rewrite <- app_assoc.
      change ("/" ++ t) with (String "/"%char t).
      apply charCodeAt_mid. }
    rewrite Hsep. change (is_code (Some CHAR_FORWARD_SLASH) CHAR_FORWARD_SLASH)
      with true. cbn match.
    f_equal.
    replace ("/" ++ R ++ "/" ++ t) with (("/" ++ R ++ "/") ++ t)
      by now rewrite !app_assoc.
    replace (1 + len R + 1) with (len ("/" ++ R ++ "/") + 0)
      by (rewrite !len_app; change (len "/") with 1; lia).
    rewrite slice_from_app_r by lia. apply slice_from_0.
  - assert (HR : R = EmptyString).
    { destruct R; [reflexivity|]. rewrite len_cons in ER.
      pose proof (len_nonneg R). lia. }
    rewrite HR. rewrite Ht.
    change ("/" ++ EmptyString) with "/". change (len "/") with 1.
    assert (Hto : len ("/" ++ String c t') = 2 + len t').
    { rewrite len_app, (len_cons c t'). change (len "/") with 1. lia. }
    pose proof (len_nonneg t').
    rewrite eqb_len_neq by (rewrite Hto; change (len "/") with 1; lia).
    rewrite Hto.
    replace (1 - 1 <? 2 + len t' - 1) with true by lia.
    change (1 - 1) with 0. change (Z.to_nat 0) with 0%nat.
    cbn [posix.common_loop]. rewrite Z.eqb_refl.
    replace (2 + len t' - 1 >? 0) with true by lia.
    change (charCodeAt ("/" ++ String c t') (1 + 0)) with (Some (code_of c)).
    unfold is_code, strict_eq. rewrite Hc.
    f_equal.
    change (1 + 0) with (len "/" + 0).
    rewrite slice_from_app_r by lia. apply slice_from_0.
Qed.

Lemma no_slash_charCodeAt (f : string) (j : Z) :
  no_slash f = true -> is_code (charCodeAt f j) CHAR_FORWARD_SLASH = false.
Proof.
  unfold charCodeAt. destruct (j <? 0); [reflexivity|].
  generalize (Z.to_nat j). clear j.
  induction f as [|c f IH]; intros n H; [reflexivity|].
  simpl in H. apply andb_prop in H. destruct H as [Hc Hf].
  destruct n as [|n].
  - simpl. apply negb_true_iff in Hc. exact Hc.
  - apply IH. exact Hf.
Qed.

Lemma dirname_loop_no_slash (f : string) (n : nat) (i : Z) (m : bool) :
  no_slash f = true -> posix.dirname_loop f n i m = None.
Proof.
  intros H. revert i m. induction n as [|n IH]; intros i m; [reflexivity|].
  cbn [posix.dirname_loop]. rewrite no_slash_charCodeAt by exact H.
  apply IH.
Qed.

(** The directory of a bare file name is the current directory. *)
Lemma dirname_file (f : string) :
  no_slash f = true -> posix.dirname f = ".".
Proof.
  intros H. unfold posix.dirname.
  destruct (len f =? 0); [reflexivity|].
  rewrite dirname_loop_no_slash by exact H.
  rewrite no_slash_charCodeAt by exact H. reflexivity.
Qed.

Lemma dirname_loop_scan (pre f : string) (k n : nat) (m : bool) :
  no_slash f = true ->
  (k <= String.length f)%nat -> (k < n)%nat ->
  (k = 0%nat -> m = false) ->
  posix.dirname_loop (pre ++ "/" ++ f) n (len pre + Z.of_nat k) m
  = Some (len pre).
Proof.
  intros Hf. revert n m. induction k as [|k IH]; intros n m Hk Hn Hm.
  - destruct n as [|n]; [lia|]. cbn [posix.dirname_loop].
    rewrite Z.add_0_r. change ("/" ++ f) with (String "/"%char f).
    rewrite charCodeAt_mid. rewrite (Hm eq_refl). reflexivity.
  - destruct n as [|n]; [lia|]. cbn [posix.dirname_loop].
    replace (len pre + Z.of_nat (S k))
      with (len (pre ++ "/") + Z.of_nat k)
      by (rewrite len_app; change (len "/") with 1; lia).
    rewrite <- app_assoc.
    rewrite charCodeAt_app_r by lia.
    rewrite no_slash_charCodeAt by exact Hf.
    replace (len (pre ++ "/") + Z.of_nat k - 1)
      with (len pre + Z.of_nat k)
      by (rewrite len_app; change (len "/") with 1; lia).
    rewrite app_assoc.
    apply IH; [lia | lia | reflexivity].
Qed.

(** The directory of [pre/f] is [pre], for a relative [pre]. *)
Lemma dirname_child (pre f : string) :
  0 < len pre -> posix_absolute pre = false ->
  0 < len f -> no_slash f = true ->
  posix.dirname (pre ++ "/" ++ f) = pre.
Proof.
  intros Hpre Hrel Hlen Hf. unfold posix.dirname.
  assert (Hl : len (pre ++ "/" ++ f) = len pre + 1 + len f).
  { rewrite !len_app. change (len "/") with 1. lia. }
  rewrite Hl. replace (len pre + 1 + len f =? 0) with false by lia.
  replace (len pre + 1 + len f - 1)
    with (len pre + Z.of_nat (String.length f)) by (unfold len; lia).
  rewrite dirname_loop_scan;
    [ | exact Hf | lia | unfold len in *; lia | unfold len in *; lia ].
  rewrite charCodeAt_app_l by lia.
  unfold posix_absolute in Hrel. rewrite Hrel. cbn [andb].
  rewrite slice_app_l by lia. apply (slice_from_0 pre).
Qed.
End PosixFacts.

(** ** Package labels *)

Module LabelFacts.
Import JS NodePath JSFacts PosixFacts.

Lemma join_slash_snoc (dsegs : list string) (f : string) :
  dsegs <> [] ->
  join_slash (dsegs ++ [f]) = join_slash dsegs ++ "/" ++ f.
Proof.
  induction dsegs as [|d dsegs IH]; intros H; [congruence|].
  destruct dsegs as [|d' dsegs]; [reflexivity|].
  change (join_slash ((d :: d' :: dsegs) ++ [f]))
    with (d ++ "/" ++ join_slash ((d' :: dsegs) ++ [f])).
  rewrite IH by discriminate.
  change (join_slash (d :: d' :: dsegs))
    with (d ++ "/" ++ join_slash (d' :: dsegs)).
  now rewrite !app_assoc.
Qed.

Lemma plain_segment_no_slash (f : string) :
  plain_segment f = true -> no_slash f = true.
Proof.
  destruct f; [discriminate|]. unfold plain_segment.
  intros H. apply andb_prop in H. tauto.
Qed.

(** On a POSIX host, for an absolute workspace root and a BUILD file
    whose path continues the root with plain directory names, the
    label is ["//"] followed by those names joined with slashes. *)
Lemma posix_label_of_package
      (process : Process) (W : string) (dsegs : list string) (f : string) :
  posix_absolute W = true ->
  forallb plain_segment dsegs = true ->
  plain_segment f = true ->
  packageLabel (path_of Posix process) W
               (W ++ "/" ++ join_slash (dsegs ++ [f]))
  = Ok ("//" ++ join_slash dsegs).
Proof.
  intros HW Hd Hf. unfold packageLabel. cbn [path_of relative dirname].
  rewrite relative_child;
    [ | exact HW
      | rewrite forallb_app; cbn [forallb]; now rewrite Hd, Hf
      | now destruct dsegs ].
  cbn [result_bind].
  pose proof (plain_segment_nonempty f Hf) as Hlen.
  pose proof (plain_segment_no_slash f Hf) as Hns.
  destruct dsegs as [|d dsegs].
  - cbn [List.app join_slash]. rewrite dirname_file by exact Hns.
    reflexivity.
  - assert (Hne : d :: dsegs <> []) by discriminate.
    destruct (join_slash_head (d :: dsegs) Hd Hne) as (c & t & Ht & Hc & Hdot).
    rewrite join_slash_snoc by exact Hne.
    rewrite dirname_child; [ | | | exact Hlen | exact Hns ].
    + rewrite Ht. cbn [String.eqb].
      replace (Ascii.eqb c ".") with false; [reflexivity|].
      symmetry. apply Ascii.eqb_neq. intros ->. discriminate.
    + rewrite Ht, len_cons. pose proof (len_nonneg t). lia.
    + rewrite Ht. unfold posix_absolute. rewrite charCodeAt_head.
      exact Hc.
Qed.

(** [resolve] on a fully qualified Windows path does not ask the
    process for anything either. *)
Lemma win32_resolve_qualified (process : Process) (p : string) :
  win32_qualified p = true ->
  exists st,
    win32.resolve_turn p
      {| win32.resolvedDevice := EmptyString; win32.resolvedTail := EmptyString;
         win32.resolvedAbsolute := false |} = (st, true)
    /\ win32.resolve process [p]
       = Ok (win32.resolvedDevice st ++ "\"
             ++ normalizeString (win32.resolvedTail st) false "\"
                                isPathSeparator).
Proof.
  intros H. unfold win32_qualified in H.
  assert (Hne : (len p =? 0) = false).
  { destruct p; [discriminate | rewrite len_cons].
    pose proof (len_nonneg p). lia. }
  unfold win32.resolve. cbn [rev List.app win32.resolve_loop].
  rewrite Hne. unfold win32.resolve_turn.
  destruct (win32.resolve_root p) as [[rootEnd device] isAbsolute].
  apply andb_prop in H. destruct H as [-> Hdev].
  cbn [win32.resolvedDevice win32.resolvedAbsolute win32.resolvedTail].
  change (len EmptyString >? 0) with false. rewrite Hdev. cbn [andb negb].
  rewrite ?Hdev.
  eexists. split; [reflexivity|].
  cbn [result_bind win32.resolvedDevice win32.resolvedAbsolute
       win32.resolvedTail negb]. reflexivity.
Qed.

Lemma win32_relative_qualified (p1 p2 : Process) (W F : string) :
  win32_qualified W = true -> win32_qualified F = true ->
  win32.relative p1 W F = win32.relative p2 W F
  /\ exists r, win32.relative p1 W F = Ok r.
Proof.
  intros HW HF.
  destruct (win32_resolve_qualified p1 W HW) as (sw & Hw1 & Hw2).
  destruct (win32_resolve_qualified p2 W HW) as (sw' & Hw1' & Hw2').
  destruct (win32_resolve_qualified p1 F HF) as (sf & Hf1 & Hf2).
  destruct (win32_resolve_qualified p2 F HF) as (sf' & Hf1' & Hf2').
  rewrite Hw1 in Hw1'. injection Hw1' as <-.
  rewrite Hf1 in Hf1'. injection Hf1' as <-.
  unfold win32.relative. rewrite Hw2, Hw2', Hf2, Hf2'.
  split; [reflexivity|].
  cbn [result_bind]. cbv zeta.
  repeat match goal with
         | |- context [if ?b then _ else _] => destruct b
         | |- context [let '(_, _) := ?x in _] => destruct x
         end; eexists; reflexivity.
Qed.

Lemma posix_relative_absolute (p1 p2 : Process) (W F : string) :
  posix_absolute W = true -> posix_absolute F = true ->
  posix.relative p1 W F = posix.relative p2 W F
  /\ exists r, posix.relative p1 W F = Ok r.
Proof.
  intros HW HF. unfold posix.relative.
  rewrite !(resolve_absolute _ W HW), !(resolve_absolute _ F HF).
  split; [reflexivity|].
  cbn [result_bind]. cbv zeta.
  repeat match goal with
         | |- context [if ?b then _ else _] => destruct b
         | |- context [let '(_, _) := ?x in _] => destruct x
         end; eexists; reflexivity.
Qed.

Lemma relative_qualified (platform : Platform) (p1 p2 : Process)
      (W F : string) :
  fully_qualified platform W = true -> fully_qualified platform F = true ->
  relative (path_of platform p1) W F = relative (path_of platform p2) W F
  /\ exists r, relative (path_of platform p1) W F = Ok r.
Proof.
  destruct platform; cbn [fully_qualified path_of relative].
  - apply posix_relative_absolute.
  - apply win32_relative_qualified.
Qed.

Lemma dirname_platform (platform : Platform) (p1 p2 : Process) :
  dirname (path_of platform p1) = dirname (path_of platform p2).
Proof. destruct platform; reflexivity. Qed.
End LabelFacts.

(** ** The path functions on the examples of Node's documentation *)

Module PathExamples.
Import NodePath.

Example posix_relative_doc :
  posix.relative no_process "/data/orandea/test/aaa" "/data/orandea/impl/bbb"
  = Ok "../../impl/bbb".
Proof. reflexivity. Qed.

Example win32_relative_doc :
  win32.relative no_process "C:\orandea\test\aaa" "C:\orandea\impl\bbb"
  = Ok "..\..\impl\bbb".
Proof. reflexivity. Qed.

Example posix_dirname_doc :
  posix.dirname "/foo/bar/baz/asdf/quux" = "/foo/bar/baz/asdf".
Proof. reflexivity. Qed.

Example win32_dirname_drive : win32.dirname "C:\foo\bar" = "C:\foo".
Proof. reflexivity. Qed.

Example posix_resolve_dots :
  posix.resolve no_process ["/foo/bar"; "./baz/../qux//"] = Ok "/foo/bar/qux".
Proof. reflexivity. Qed.

Example win32_resolve_mixed :
  win32.resolve no_process ["C:/foo\bar"; "..\baz"] = Ok "C:\foo\baz".
Proof. reflexivity. Qed.

Example posix_relative_needs_cwd :
  posix.relative no_process "ws" "ws/a/BUILD"
  = Throw (mkError "ENOENT: process.cwd failed").
Proof. reflexivity. Qed.
End PathExamples.

(** ** The claims *)

Module Claims.
Import JS NodePath JSFacts PosixFacts LabelFacts.

Lemma addCodeLens_loop_map (ws : string) (rs : list Rule)
      (result : list CodeLens) :
  addCodeLens_loop ws rs result
  = (result ++ map (addCodeLens_lens ws) rs)%list.
Proof.
  revert result. induction rs as [|rule rs IH]; intros result; simpl.
  - now rewrite List.app_nil_r.
  - rewrite IH. now rewrite <- List.app_assoc.
Qed.

Lemma addCodeLens_map (ws : string) (qr : QueryResult) :
  addCodeLens ws qr = map (addCodeLens_lens ws) (rules qr).
Proof. unfold addCodeLens. now rewrite addCodeLens_loop_map. Qed.

(** What [getTargetsForBuildFile] does once the label is there: one
    query, whose outcome is the outcome of the call. *)
Lemma getTargetsForBuildFile_run
      (host : Host) (workspace buildFile pkg : string) (tr : Trace) :
  packageLabel (path host) workspace buildFile = Ok pkg ->
  getTargetsForBuildFile host workspace buildFile tr
  = (queryClient host tr QueryTargets
       {| workspaceRoot := workspace;
          query := "'kind(rule, " ++ pkg ++ ":all)'";
          options := [] |},
     (tr ++ [RunQuery QueryTargets
               {| workspaceRoot := workspace;
                  query := "'kind(rule, " ++ pkg ++ ":all)'";
                  options := [] |}])%list).
Proof.
  intros H. unfold getTargetsForBuildFile, bind, lift, await_query, ret.
  rewrite H. destruct (queryClient host tr QueryTargets _); reflexivity.
Qed.

(** The same for [provideCodeLenses] in a workspace. *)
Lemma provideCodeLenses_run
      (host : Host) (fsPath workspace pkg : string) (tr : Trace) :
  getBazelWorkspaceFolder host fsPath = Some workspace ->
  packageLabel (path host) workspace fsPath = Ok pkg ->
  provideCodeLenses host fsPath tr
  = (match queryClient host tr RunAndParse
             {| workspaceRoot := workspace;
                query := "'kind(rule, " ++ pkg ++ ":all)'";
                options := [] |}
     with
     | Ok queryResult => Ok (addCodeLens workspace queryResult)
     | Throw e => Throw e
     end,
     (tr ++ [RunQuery RunAndParse
               {| workspaceRoot := workspace;
                  query := "'kind(rule, " ++ pkg ++ ":all)'";
                  options := [] |}])%list).
Proof.
  intros Hw H. unfold provideCodeLenses. rewrite Hw.
  unfold bind, lift, await_query, ret.
  rewrite H. destruct (queryClient host tr RunAndParse _); reflexivity.
Qed.

(** On a POSIX host no character but the forward slash separates. *)
Lemma posix_only_forward_slashes (s : string) :
  only_forward_slashes Posix s = true.
Proof.
  induction s as [|c s IH]; [reflexivity|].
  cbn [only_forward_slashes is_separator]. rewrite IH, andb_true_r.
  unfold isPosixPathSeparator, is_code, strict_eq.
  destruct (code_of c =? CHAR_FORWARD_SLASH) eqn:E; [|reflexivity].
  cbn [negb orb]. apply Ascii.eqb_eq.
  apply Z.eqb_eq in E. unfold code_of, CHAR_FORWARD_SLASH in E.
  rewrite <- (ascii_N_embedding c).
  replace (N_of_ascii c) with 47%N by lia. reflexivity.
Qed.

(** C1 (the code falls short of it). On a Windows host the label keeps
    the backslashes of the relative directory: for the workspace
    [C:\ws] and the BUILD file [C:\ws\a\b\BUILD] the package label is
    [//a\b], and so it is when both paths are written with forward
    slashes; the label holds a separator other than the forward slash,
    and the query sent is ['kind(rule, //a\b:all)']. *)
Theorem windows_label_keeps_backslashes (process : Process) :
  packageLabel (path_of Win32 process) "C:\ws" "C:\ws\a\b\BUILD"
  = Ok "//a\b"
  /\ packageLabel (path_of Win32 process) "C:/ws" "C:/ws/a/b/BUILD"
     = Ok "//a\b"
  /\ only_forward_slashes Win32 "//a\b" = false
  /\ (forall (gwf : string -> option string)
             (qc : Trace -> QueryMethod -> BazelQuery -> result QueryResult),
        snd (getTargetsForBuildFile
               {| path := path_of Win32 process;
                  getBazelWorkspaceFolder := gwf;
                  queryClient := qc |}
               "C:\ws" "C:\ws\a\b\BUILD" [])
        = [RunQuery QueryTargets
             {| workspaceRoot := "C:\ws";
                query := "'kind(rule, //a\b:all)'";
                options := [] |}]).
Proof.
  split; [vm_compute; reflexivity|].
  split; [vm_compute; reflexivity|].
  split; [reflexivity|].
  intros gwf qc.
  erewrite getTargetsForBuildFile_run by (vm_compute; reflexivity).
  reflexivity.
Qed.

(** C2 (the code falls short of it on Windows). On a Windows host,
    for the workspace root [W = C:\ws], written with either separator,
    the label of [W/a/b/BUILD] is ["//a\b"], which is not ["//a/b"];
    the label of [W/BUILD] is ["//"], as the claim has it. *)
Theorem label_of_build_file_on_windows (process : Process) :
  packageLabel (path_of Win32 process) "C:\ws" ("C:\ws" ++ "/a/b/BUILD")
  = Ok "//a\b"
  /\ packageLabel (path_of Win32 process) "C:/ws" ("C:/ws" ++ "/a/b/BUILD")
     = Ok "//a\b"
  /\ "//a\b" <> "//a/b"
  /\ packageLabel (path_of Win32 process) "C:\ws" ("C:\ws" ++ "/BUILD")
     = Ok "//"
  /\ packageLabel (path_of Win32 process) "C:/ws" ("C:/ws" ++ "/BUILD")
     = Ok "//".
Proof.
  split; [vm_compute; reflexivity|].
  split; [vm_compute; reflexivity|].
  split; [discriminate|].
  split; vm_compute; reflexivity.
Qed.

(** On a POSIX host the same claim holds: for every absolute
    workspace root [W], the label of [W/a/b/BUILD] is ["//a/b"], and
    the label of [W/BUILD] is ["//"]. *)
Lemma label_of_build_file (process : Process) (W : string) :
  posix_absolute W = true ->
  packageLabel (path_of Posix process) W (W ++ "/a/b/BUILD") = Ok "//a/b"
  /\ packageLabel (path_of Posix process) W (W ++ "/BUILD") = Ok "//".
Proof.
  intros HW. split.
  - exact (posix_label_of_package process W ["a"; "b"] "BUILD" HW
             eq_refl eq_refl).
  - exact (posix_label_of_package process W [] "BUILD" HW eq_refl eq_refl).
Qed.

Lemma label_of_build_file_witness :
  posix_absolute "/home/u/ws" = true
  /\ packageLabel (path_of Posix no_process) "/home/u/ws"
                  "/home/u/ws/a/b/BUILD" = Ok "//a/b"
  /\ packageLabel (path_of Posix no_process) "/home/u/ws"
                  "/home/u/ws/BUILD" = Ok "//".
Proof.
  split; [reflexivity|].
  apply (label_of_build_file no_process "/home/u/ws").
  reflexivity.
Defined.






(** C5. The query handed to the query client for the label [//<dir>]
    is ['kind(rule, //<dir>:all)'], in single quotes, with the pattern
    [:all], and with an empty list of extra arguments; it is the only
    event of the call. This holds for [getTargetsForBuildFile] and,
    in a workspace, for [provideCodeLenses]. *)
Theorem query_expression_format
        (host : Host) (workspace file dir : string) (tr : Trace) :
  packageLabel (path host) workspace file = Ok ("//" ++ dir) ->
  snd (getTargetsForBuildFile host workspace file tr)
  = (tr ++ [RunQuery QueryTargets
              {| workspaceRoot := workspace;
                 query := "'kind(rule, //" ++ dir ++ ":all)'";
                 options := [] |}])%list
  /\ (getBazelWorkspaceFolder host file = Some workspace ->
      snd (provideCodeLenses host file tr)
      = (tr ++ [RunQuery RunAndParse
                  {| workspaceRoot := workspace;
                     query := "'kind(rule, //" ++ dir ++ ":all)'";
                     options := [] |}])%list).
Proof.
  intros H. split.
  - rewrite (getTargetsForBuildFile_run host workspace file _ tr H).
    reflexivity.
  - intros Hw.
    rewrite (provideCodeLenses_run host file workspace _ tr Hw H).
    reflexivity.
Qed.

Lemma query_expression_format_witness :
  let host := posix_host (fun _ => Some "/ws")
                         (fun _ _ _ => Ok {| rules := [] |}) in
  snd (getTargetsForBuildFile host "/ws" "/ws/a/b/BUILD" [])
  = [RunQuery QueryTargets
       {| workspaceRoot := "/ws";
          query := "'kind(rule, //a/b:all)'";
          options := [] |}]
  /\ snd (provideCodeLenses host "/ws/a/b/BUILD" [])
     = [RunQuery RunAndParse
          {| workspaceRoot := "/ws";
             query := "'kind(rule, //a/b:all)'";
             options := [] |}].
Proof.
  intros host.
  destruct (query_expression_format host "/ws" "/ws/a/b/BUILD" "a/b" []
              eq_refl) as [H1 H2].
  split; [exact H1 | exact (H2 eq_refl)].
Defined.

(** C6. When no workspace root is found for the file,
    [provideCodeLenses] shows one warning, returns the empty list
    normally, and runs no query. *)
Theorem no_workspace_warns_once (host : Host) (fsPath : string) (tr : Trace) :
  getBazelWorkspaceFolder host fsPath = None ->
  provideCodeLenses host fsPath tr
  = (Ok [],
     (tr ++ [ShowWarningMessage
               "Bazel BUILD CodeLens unavailable as currently opened file is not in a Bazel workspace"])%list)
  /\ List.length (filter is_warning (snd (provideCodeLenses host fsPath tr)))
     = S (List.length (filter is_warning tr))
  /\ filter is_query (snd (provideCodeLenses host fsPath tr))
     = filter is_query tr.
Proof.
  intros H. unfold provideCodeLenses. rewrite H.
  unfold bind, showWarningMessage, emit, ret. cbn [snd].
  rewrite !filter_app. cbn [filter is_warning is_query].
  rewrite List.app_nil_r, List.length_app. cbn [List.length].
  repeat split. lia.
Qed.

Lemma no_workspace_warns_once_witness :
  provideCodeLenses
    (posix_host (fun _ => None) (fun _ _ _ => Ok {| rules := [rule_t] |}))
    "/tmp/BUILD" []
  = (Ok [],
     [ShowWarningMessage
        "Bazel BUILD CodeLens unavailable as currently opened file is not in a Bazel workspace"]).
Proof.
  apply (no_workspace_warns_once
           (posix_host (fun _ => None)
                       (fun _ _ _ => Ok {| rules := [rule_t] |}))
           "/tmp/BUILD" []).
  reflexivity.
Defined.

(** C7. When the query client's call fails with an error, the call of
    the extension fails with that error, after that one query and no
    other: nothing is caught, retried or returned. *)
Theorem query_failure_propagates
        (host : Host) (workspace file pkg : string) (tr : Trace) (e : Error) :
  packageLabel (path host) workspace file = Ok pkg ->
  (queryClient host tr QueryTargets
     {| workspaceRoot := workspace;
        query := "'kind(rule, " ++ pkg ++ ":all)'";
        options := [] |} = Throw e ->
   getTargetsForBuildFile host workspace file tr
   = (Throw e,
      (tr ++ [RunQuery QueryTargets
                {| workspaceRoot := workspace;
                   query := "'kind(rule, " ++ pkg ++ ":all)'";
                   options := [] |}])%list))
  /\ (getBazelWorkspaceFolder host file = Some workspace ->
      queryClient host tr RunAndParse
        {| workspaceRoot := workspace;
           query := "'kind(rule, " ++ pkg ++ ":all)'";
           options := [] |} = Throw e ->
      provideCodeLenses host file tr
      = (Throw e,
         (tr ++ [RunQuery RunAndParse
                   {| workspaceRoot := workspace;
                      query := "'kind(rule, " ++ pkg ++ ":all)'";
                      options := [] |}])%list)).
Proof.
  intros H. split.
  - intros Hq.
    rewrite (getTargetsForBuildFile_run host workspace file pkg tr H).
    now rewrite Hq.
  - intros Hw Hq.
    rewrite (provideCodeLenses_run host file workspace pkg tr Hw H).
    now rewrite Hq.
Qed.

Lemma query_failure_propagates_witness :
  let host := posix_host (fun _ => Some "/ws")
                         (fun _ _ _ => Throw bazel_failed) in
  getTargetsForBuildFile host "/ws" "/ws/a/b/BUILD" []
  = (Throw bazel_failed,
     [RunQuery QueryTargets
        {| workspaceRoot := "/ws";
           query := "'kind(rule, //a/b:all)'";
           options := [] |}])
  /\ provideCodeLenses host "/ws/a/b/BUILD" []
     = (Throw bazel_failed,
        [RunQuery RunAndParse
           {| workspaceRoot := "/ws";
              query := "'kind(rule, //a/b:all)'";
              options := [] |}]).
Proof.
  intros host.
  destruct (query_failure_propagates host "/ws" "/ws/a/b/BUILD" "//a/b" []
              bazel_failed eq_refl) as [H1 H2].
  split; [exact (H1 eq_refl) | exact (H2 eq_refl eq_refl)].
Defined.


(** C9 as stated fails: for a workspace root that is not an absolute
    path the resolver reads the current directory of the process, and
    the same two inputs give different labels in different
    directories. *)
Lemma package_label_reads_cwd :
  packageLabel (path_of Posix root_process) "ws" "/x/BUILD" = Ok "//../x"
  /\ packageLabel (path_of Posix other_process) "ws" "/x/BUILD"
     = Ok "//../../../x"
  /\ packageLabel (path_of Posix root_process) "ws" "/x/BUILD"
     <> packageLabel (path_of Posix other_process) "ws" "/x/BUILD".
Proof.
  assert (H1 : packageLabel (path_of Posix root_process) "ws" "/x/BUILD"
               = Ok "//../x") by (vm_compute; reflexivity).
  assert (H2 : packageLabel (path_of Posix other_process) "ws" "/x/BUILD"
               = Ok "//../../../x") by (vm_compute; reflexivity).
  split; [exact H1|]. split; [exact H2|].
  rewrite H1, H2. discriminate.
Qed.

(** C9, amended. For fully qualified inputs the package label is a
    function of the workspace root and the BUILD file path alone: it
    is the same whatever the process (its current directory, its
    environment), and it is always a label, never an exception. *)
Theorem package_label_pure
        (platform : Platform) (p1 p2 : Process) (W F : string) :
  fully_qualified platform W = true ->
  fully_qualified platform F = true ->
  packageLabel (path_of platform p1) W F
  = packageLabel (path_of platform p2) W F
  /\ exists label, packageLabel (path_of platform p1) W F = Ok label.
Proof.
  intros HW HF. unfold packageLabel.
  destruct (relative_qualified platform p1 p2 W F HW HF) as [E [r Hr]].
  rewrite <- E, Hr. cbn [result_bind].
  rewrite (dirname_platform platform p1 p2).
  split; [reflexivity | eexists; reflexivity].
Qed.

Lemma package_label_pure_witness :
  packageLabel (path_of Posix no_process) "/ws" "/ws/x/BUILD"
  = packageLabel (path_of Posix other_process) "/ws" "/ws/x/BUILD"
  /\ exists label,
       packageLabel (path_of Posix no_process)
                    "/ws" "/ws/x/BUILD" = Ok label.
Proof.
  apply (package_label_pure Posix no_process other_process
                            "/ws" "/ws/x/BUILD");
    reflexivity.
Defined.

(** Whatever the [path] module, a label starts with two slashes. *)
Lemma label_prefix (pm : PathModule) (W F label : string) :
  packageLabel pm W F = Ok label -> exists dir, label = "//" ++ dir.
Proof.
  unfold packageLabel. destruct (relative pm W F); cbn [result_bind];
    [|discriminate].
  intros H. injection H as <-. eexists. reflexivity.
Qed.

(** C10 as stated fails: for a workspace root that is not an
    absolute path, in a process whose current directory is gone, the
    resolver returns no label but throws. *)
Lemma label_fails_without_cwd :
  packageLabel (path_of Posix no_process) "ws" "/x/BUILD"
  = Throw (mkError "ENOENT: process.cwd failed")
  /\ ~ (exists dir,
          packageLabel (path_of Posix no_process) "ws" "/x/BUILD"
          = Ok ("//" ++ dir)).
Proof.
  assert (H1 : packageLabel (path_of Posix no_process) "ws" "/x/BUILD"
               = Throw (mkError "ENOENT: process.cwd failed"))
    by (vm_compute; reflexivity).
  split; [exact H1|]. intros [dir H]. rewrite H1 in H. discriminate H.
Qed.

(** C10, amended. Whatever the inputs, a label that the resolver
    returns starts with ["//"]; and for fully qualified inputs, inside
    the workspace or outside it, the resolver does return a label. *)
Theorem label_starts_with_slashes
        (platform : Platform) (process : Process) (W F : string) :
  (forall label,
      packageLabel (path_of platform process) W F = Ok label ->
      exists dir, label = "//" ++ dir)
  /\ (fully_qualified platform W = true ->
      fully_qualified platform F = true ->
      exists dir,
        packageLabel (path_of platform process) W F = Ok ("//" ++ dir)).
Proof.
  split.
  - intros label. apply label_prefix.
  - intros HW HF.
    destruct (relative_qualified platform process process W F HW HF)
      as [_ [r Hr]].
    unfold packageLabel. rewrite Hr. cbn [result_bind].
    eexists. reflexivity.
Qed.

Example label_outside_workspace :
  packageLabel (path_of Posix no_process) "/ws" "/other/x/BUILD"
  = Ok "//../other/x".
Proof. reflexivity. Qed.

Lemma label_starts_with_slashes_witness :
  exists dir,
    packageLabel (path_of Posix no_process)
                 "/ws" "/other/x/BUILD" = Ok ("//" ++ dir).
Proof.
  apply (proj2 (label_starts_with_slashes Posix no_process
                                          "/ws" "/other/x/BUILD"));
    reflexivity.
Defined.
End Claims.

(** ** The Windows flavour on drive paths *)

Module Win32Facts.
Import JS NodePath JSFacts PathFacts PosixFacts.

#[local] Abbreviation wsteps p :=
  (normalize_steps p false "\" isPathSeparator).

Lemma lower_keeps_code (c : ascii) (k : Z) :
  k = CHAR_BACKWARD_SLASH \/ k = CHAR_FORWARD_SLASH ->
  (code_of (lower_ascii c) =? k) = (code_of c =? k).
Proof.
  intros [-> | ->];
    destruct c as [[] [] [] [] [] [] [] []]; reflexivity.
Qed.

Lemma toLowerCase_app (a b : string) :
  toLowerCase (a ++ b) = toLowerCase a ++ toLowerCase b.
Proof. induction a as [|c a IH]; simpl; [reflexivity | now rewrite IH]. Qed.

Lemma length_toLowerCase (s : string) :
  String.length (toLowerCase s) = String.length s.
Proof. induction s as [|c s IH]; simpl; [reflexivity | now rewrite IH]. Qed.

Lemma len_toLowerCase (s : string) : len (toLowerCase s) = len s.
Proof. unfold len. now rewrite length_toLowerCase. Qed.

Lemma get_toLowerCase (s : string) (n : nat) :
  get n (toLowerCase s) = option_map lower_ascii (get n s).
Proof.
  revert n. induction s as [|c s IH]; intros n; [reflexivity|].
  destruct n as [|n]; [reflexivity|]. apply IH.
Qed.

Lemma backslash_toLowerCase (s : string) (i : Z) :
  is_code (charCodeAt (toLowerCase s) i) CHAR_BACKWARD_SLASH
  = is_code (charCodeAt s i) CHAR_BACKWARD_SLASH.
Proof.
  unfold charCodeAt. destruct (i <? 0); [reflexivity|].
  rewrite get_toLowerCase. destruct (get (Z.to_nat i) s) as [c|];
    [|reflexivity].
  cbn [option_map]. unfold is_code, strict_eq.
  apply lower_keeps_code. now left.
Qed.

Lemma drive_letter_no_sep (d : ascii) :
  drive_letter d = true ->
  isPathSeparator (Some (code_of d)) = false
  /\ isPathSeparator (Some (code_of (lower_ascii d))) = false.
Proof.
  destruct d as [[] [] [] [] [] [] [] []]; intros H;
    try discriminate H; split; reflexivity.
Qed.

Lemma no_win_special_charCodeAt (f : string) (j : Z) :
  no_win_special f = true -> isPathSeparator (charCodeAt f j) = false.
Proof.
  unfold charCodeAt. destruct (j <? 0); [reflexivity|].
  generalize (Z.to_nat j). clear j.
  induction f as [|c f IH]; intros n H; [reflexivity|].
  simpl in H. apply andb_prop in H. destruct H as [Hc Hf].
  apply andb_prop in Hc. destruct Hc as [Hc _].
  destruct n as [|n].
  - simpl. apply negb_true_iff in Hc. exact Hc.
  - apply IH. exact Hf.
Qed.

Lemma win_plain_nonempty (seg : string) :
  win_plain_segment seg = true -> 0 < len seg.
Proof.
  destruct seg; [discriminate|]. intros _. rewrite len_cons.
  pose proof (len_nonneg seg). lia.
Qed.

Lemma win_plain_no_special (seg : string) :
  win_plain_segment seg = true -> no_win_special seg = true.
Proof.
  destruct seg; [discriminate|]. unfold win_plain_segment.
  intros H. apply andb_prop in H. tauto.
Qed.

(** Inside a segment that has already shown a character other than a
    dot, nothing changes. *)
Lemma wsteps_no_sep (seg pre post r : string) (l ls : Z) :
  no_win_special seg = true ->
  wsteps (pre ++ seg ++ post) (String.length seg) (len pre)
    {| res := r; lastSegmentLength := l; lastSlash := ls; dots := -1 |}
  = {| res := r; lastSegmentLength := l; lastSlash := ls; dots := -1 |}.
Proof.
  revert pre. induction seg as [|c seg IH]; intros pre H; [reflexivity|].
  simpl in H. apply andb_prop in H. destruct H as [Hc Hs].
  apply andb_prop in Hc. destruct Hc as [Hc _].
  apply negb_true_iff in Hc.
  cbn [String.length normalize_steps].
  change (String c seg ++ post) with (String c (seg ++ post)).
  rewrite charCodeAt_mid.
  unfold normalize_step at 1. rewrite Hc.
  cbn [res lastSegmentLength lastSlash dots].
  rewrite Z.eqb_refl. cbn [negb]. rewrite andb_false_r.
  rewrite (snoc_app pre c), <- (len_snoc pre c). apply IH. exact Hs.
Qed.

(** A plain segment and the backslash after it: the segment is
    appended. *)
Lemma wsteps_segment (seg pre post r : string) (l : Z) :
  win_plain_segment seg = true ->
  wsteps (pre ++ seg ++ "\" ++ post) (S (String.length seg)) (len pre)
    {| res := r; lastSegmentLength := l;
       lastSlash := len pre - 1; dots := 0 |}
  = {| res := if len r >? 0 then r ++ "\" ++ seg else seg;
       lastSegmentLength := len seg;
       lastSlash := len pre + len seg;
       dots := 0 |}.
Proof.
  destruct seg as [|c seg]; [discriminate|]. intros H.
  unfold win_plain_segment in H. apply andb_prop in H. destruct H as [Hdot Hs].
  pose proof Hs as Hs'. simpl in Hs'. apply andb_prop in Hs'.
  destruct Hs' as [Hc Hseg]. apply andb_prop in Hc. destruct Hc as [Hc _].
  apply negb_true_iff in Hdot, Hc.
  replace (S (String.length (String c seg)))
    with (1 + (String.length seg + 1))%nat by (simpl; lia).
  rewrite steps_add. cbn [normalize_steps].
  change (String c seg ++ "\" ++ post) with (String c (seg ++ "\" ++ post)).
  rewrite charCodeAt_mid.
  unfold normalize_step at 1. rewrite Hc.
  unfold is_code, strict_eq.
  cbn [res lastSegmentLength lastSlash dots].
  rewrite Hdot. cbn [andb].
  rewrite steps_add.
  rewrite (snoc_app pre c). change (Z.of_nat 1) with 1.
  rewrite <- (len_snoc pre c).
  rewrite wsteps_no_sep by exact Hseg.
  cbn [normalize_steps].
  replace (len (pre ++ String c EmptyString) + Z.of_nat (String.length seg))
    with (len ((pre ++ String c EmptyString) ++ seg))
    by (rewrite len_app; reflexivity).
  rewrite <- (app_assoc _ seg).
  change ("\" ++ post) with (String "\"%char post).
  rewrite charCodeAt_mid.
  unfold normalize_step.
  change (isPathSeparator (Some (code_of "\"))) with true.
  cbn [res lastSegmentLength lastSlash dots]. cbn match.
  pose proof (len_nonneg pre). pose proof (len_nonneg seg).
  rewrite !len_app. change (len (String c EmptyString)) with 1.
  replace (len pre - 1 =? len pre + 1 + len seg - 1) with false by lia.
  cbn [orb]. change (-1 =? 1) with false. change (-1 =? 2) with false.
  cbn match.
  assert (Hsl : slice (((pre ++ String c EmptyString) ++ seg)
                        ++ String "\"%char post)
                  (len pre - 1 + 1) (len pre + 1 + len seg) = String c seg).
  { rewrite <- snoc_app. rewrite app_assoc.
    replace (len pre - 1 + 1) with (len pre + 0) by lia.
    replace (len pre + 1 + len seg) with (len pre + len (String c seg))
      by (rewrite len_cons; lia).
    rewrite slice_app_r by (try apply len_nonneg; lia).
    rewrite slice_app_l by (pose proof (len_nonneg (String c seg)); lia).
    apply (slice_from_0 (String c seg)). }
  rewrite Hsl. rewrite len_cons. f_equal; lia.
Qed.

(** The same for a run of plain segments. *)
Lemma wsteps_segments (segs : list string) (pre post r : string) (l : Z) :
  forallb win_plain_segment segs = true -> segs <> [] ->
  exists l',
    wsteps (pre ++ backslash_each segs ++ post)
      (String.length (backslash_each segs)) (len pre)
      {| res := r; lastSegmentLength := l;
         lastSlash := len pre - 1; dots := 0 |}
    = {| res := if len r >? 0 then r ++ "\" ++ join_backslash segs
                else join_backslash segs;
         lastSegmentLength := l';
         lastSlash := len pre + len (backslash_each segs) - 1;
         dots := 0 |}.
Proof.
  revert pre r l. induction segs as [|seg segs IH]; intros pre r l H Hne;
    [congruence|].
  simpl in H. apply andb_prop in H. destruct H as [Hseg Hsegs].
  pose proof (win_plain_nonempty seg Hseg) as Hpos.
  cbn [backslash_each].
  replace (String.length (seg ++ "\" ++ backslash_each segs))
    with (S (String.length seg) + String.length (backslash_each segs))%nat
    by (rewrite !length_app; simpl; lia).
  rewrite steps_add.
  rewrite !app_assoc.
  rewrite wsteps_segment by exact Hseg.
  replace (len pre + Z.of_nat (S (String.length seg)))
    with (len pre + (len seg + 1)) by (unfold len; lia).
  destruct segs as [|seg' segs].
  - exists (len seg). cbn [backslash_each String.length normalize_steps
                           join_backslash].
    rewrite !len_app. change (len "\") with 1. change (len EmptyString) with 0.
    f_equal. lia.
  - destruct (IH (pre ++ seg ++ "\")
                 (if len r >? 0 then r ++ "\" ++ seg else seg)
                 (len seg) Hsegs) as [l' Hl']; [discriminate|].
    exists l'.
    rewrite !len_app in Hl'. change (len "\") with 1 in Hl'.
    rewrite !app_assoc in Hl'.
    replace (len pre + len seg) with (len pre + (len seg + 1) - 1) by lia.
    rewrite Hl'.
    change (join_backslash (seg :: seg' :: segs))
      with (seg ++ "\" ++ join_backslash (seg' :: segs)).
    pose proof (len_nonneg r).
    rewrite !len_app. change (len "\") with 1.
    f_equal; [|lia].
    destruct (len r >? 0) eqn:E.
    + replace (len (r ++ "\" ++ seg) >? 0) with true
        by (rewrite !len_app; change (len "\") with 1; lia).
      now rewrite !app_assoc.
    + replace (len seg >? 0) with true by lia. reflexivity.
Qed.

Lemma join_backslash_each (segs : list string) :
  segs <> [] -> join_backslash segs ++ "\" = backslash_each segs.
Proof.
  induction segs as [|seg segs IH]; intros H; [congruence|].
  destruct segs as [|seg' segs]; [reflexivity|].
  change (join_backslash (seg :: seg' :: segs))
    with (seg ++ "\" ++ join_backslash (seg' :: segs)).
  cbn [backslash_each] in *. rewrite <- IH by discriminate.
  now rewrite !app_assoc.
Qed.

Lemma join_backslash_app (a b : list string) :
  a <> [] -> b <> [] ->
  join_backslash (a ++ b) = join_backslash a ++ "\" ++ join_backslash b.
Proof.
  induction a as [|x a IH]; intros Ha Hb; [congruence|].
  destruct a as [|y a].
  - destruct b; [congruence|]. reflexivity.
  - change (join_backslash ((x :: y :: a) ++ b))
      with (x ++ "\" ++ join_backslash ((y :: a) ++ b)).
    rewrite IH by (assumption || discriminate).
    change (join_backslash (x :: y :: a))
      with (x ++ "\" ++ join_backslash (y :: a)).
    now rewrite !app_assoc.
Qed.

(** A clean relative path stays as it is under [normalizeString]. *)
Lemma normalize_clean (segs : list string) :
  forallb win_plain_segment segs = true ->
  normalizeString (join_backslash segs ++ "\") false "\" isPathSeparator
  = join_backslash segs.
Proof.
  intros H. destruct segs as [|seg segs]; [reflexivity|].
  assert (Hne : seg :: segs <> []) by discriminate.
  rewrite (join_backslash_each _ Hne).
  set (p := backslash_each (seg :: segs)).
  assert (Hlast : isPathSeparator (charCodeAt p (len p - 1)) = true).
  { unfold p. rewrite <- (join_backslash_each _ Hne).
    rewrite len_app. change (len "\") with 1.
    replace (len (join_backslash (seg :: segs)) + 1 - 1)
      with (len (join_backslash (seg :: segs))) by lia.
    change "\" with (String "\"%char EmptyString).
    rewrite charCodeAt_mid. reflexivity. }
  unfold normalizeString.
  rewrite loop_steps; [ | exact Hlast | | reflexivity].
  2:{ intros E. exfalso. unfold p in E. cbn [backslash_each] in E.
      rewrite length_app in E.
      pose proof (win_plain_nonempty seg) as Hp.
      simpl in H. apply andb_prop in H. destruct H as [Hs _].
      specialize (Hp Hs). unfold len in Hp. lia. }
  destruct (wsteps_segments (seg :: segs) EmptyString EmptyString
              EmptyString 0 H Hne) as [l' Hl'].
  cbn [String.append] in Hl'. rewrite app_empty_r in Hl'.
  fold p in Hl'. change (len EmptyString) with 0 in Hl'.
  change (0 - 1) with (-1) in Hl'.
  unfold normalize_init. rewrite Hl'. reflexivity.
Qed.

Lemma len_drive_root (d : ascii) (rest : string) :
  len (drive_root d ++ rest) = 3 + len rest.
Proof. rewrite len_app. reflexivity. Qed.

(** The root of a drive path is its first three characters. *)
Lemma resolve_root_drive (d : ascii) (rest : string) :
  drive_letter d = true ->
  win32.resolve_root (drive_root d ++ rest)
  = (3, String d ":", true).
Proof.
  intros Hd. destruct (drive_letter_no_sep d Hd) as [Hsep _].
  unfold win32.resolve_root. rewrite len_drive_root.
  pose proof (len_nonneg rest).
  replace (3 + len rest =? 1) with false by lia.
  change (charCodeAt (drive_root d ++ rest) 0) with (Some (code_of d)).
  rewrite Hsep. unfold drive_letter in Hd. rewrite Hd.
  change (charCodeAt (drive_root d ++ rest) 1) with (Some CHAR_COLON).
  change (is_code (Some CHAR_COLON) CHAR_COLON) with true.
  cbn [andb].
  replace (3 + len rest >? 2) with true by lia.
  change (charCodeAt (drive_root d ++ rest) 2)
    with (Some CHAR_BACKWARD_SLASH).
  change (isPathSeparator (Some CHAR_BACKWARD_SLASH)) with true.
  cbn [andb].
  replace (slice (drive_root d ++ rest) 0 2) with (String d ":");
    [reflexivity|].
  unfold slice, clamp. rewrite len_drive_root.
  change (0 <? 0) with false. change (2 <? 0) with false. cbv iota.
  rewrite !Z.min_l by lia. reflexivity.
Qed.

(** [resolve] leaves a clean drive path as it is, whatever the
    process. *)
Lemma resolve_clean (process : Process) (d : ascii) (segs : list string) :
  drive_letter d = true ->
  forallb win_plain_segment segs = true ->
  win32.resolve process [drive_root d ++ join_backslash segs]
  = Ok (drive_root d ++ join_backslash segs).
Proof.
  intros Hd Hsegs.
  unfold win32.resolve. cbn [rev List.app win32.resolve_loop].
  rewrite len_drive_root.
  pose proof (len_nonneg (join_backslash segs)).
  replace (3 + len (join_backslash segs) =? 0) with false by lia.
  unfold win32.resolve_turn. rewrite resolve_root_drive by exact Hd.
  cbn [win32.resolvedDevice win32.resolvedAbsolute win32.resolvedTail].
  change (len (String d ":") >? 0) with true.
  change (len EmptyString >? 0) with false.
  cbn [andb negb result_bind win32.resolvedDevice win32.resolvedAbsolute
       win32.resolvedTail].
  change (len (String d ":") >? 0) with true.
  cbn [andb negb result_bind win32.resolvedDevice win32.resolvedAbsolute
       win32.resolvedTail].
  change 3 with (len (drive_root d) + 0).
  rewrite slice_from_app_r by lia. rewrite slice_from_0.
  change ("\" ++ EmptyString) with "\".
  rewrite normalize_clean by exact Hsegs. reflexivity.
Qed.

Lemma wcommon_loop_S (from to : string) (fs ts : Z) (n : nat) (i lcs : Z) :
  win32.common_loop from to fs ts (S n) i lcs
  = if negb (strict_eq (charCodeAt from (fs + i)) (charCodeAt to (ts + i)))
    then (i, lcs)
    else if is_code (charCodeAt from (fs + i)) CHAR_BACKWARD_SLASH
    then win32.common_loop from to fs ts n (i + 1) i
    else win32.common_loop from to fs ts n (i + 1) lcs.
Proof. reflexivity. Qed.

Lemma wcommon_loop_same (L x y : string) (n : nat) (i lcs : Z) :
  0 <= i -> i + Z.of_nat n <= len L ->
  fst (win32.common_loop (L ++ x) (L ++ y) 0 0 n i lcs) = i + Z.of_nat n.
Proof.
  revert i lcs. induction n as [|n IH]; intros i lcs H1 H2.
  - simpl. lia.
  - rewrite wcommon_loop_S. rewrite !Z.add_0_l.
    rewrite !charCodeAt_app_l by lia.
    destruct (charCodeAt_in_range L i) as [c Hc]; [lia|].
    rewrite Hc. unfold strict_eq at 1. rewrite Z.eqb_refl. cbn [negb].
    destruct (is_code (Some c) CHAR_BACKWARD_SLASH);
      rewrite IH by lia; lia.
Qed.

Lemma skip_while_stop (p : num -> bool) (s : string) (n : nat) (j : Z) :
  p (charCodeAt s j) = false -> win32.skip_while p s n j = j.
Proof.
  intros H. destruct n as [|n]; [reflexivity|].
  cbn [win32.skip_while]. rewrite H, andb_false_r. reflexivity.
Qed.

Lemma trim_end_stop (s : string) (start : Z) (n : nat) (e : Z) :
  win32.isBackslash (charCodeAt s (e - 1)) = false ->
  win32.trim_end s start n e = e.
Proof.
  intros H. destruct n as [|n]; [reflexivity|].
  cbn [win32.trim_end]. rewrite H, andb_false_r. reflexivity.
Qed.

(** From a directory [A] (written with or without a backslash at its
    end) to [A\t], when [resolve] leaves both as they are: the
    relative path is [t]. *)
Lemma relative_under (process : Process) (A x t : string) :
  win32.resolve process [A ++ x] = Ok (A ++ x) ->
  win32.resolve process [A ++ "\" ++ t] = Ok (A ++ "\" ++ t) ->
  x = EmptyString \/ x = "\" ->
  0 < len A ->
  is_code (charCodeAt A 0) CHAR_BACKWARD_SLASH = false ->
  is_code (charCodeAt A (len A - 1)) CHAR_BACKWARD_SLASH = false ->
  0 < len t ->
  is_code (charCodeAt t (len t - 1)) CHAR_BACKWARD_SLASH = false ->
  win32.relative process (A ++ x) (A ++ "\" ++ t) = Ok t.
Proof.
  intros Hrf Hrt Hx HA Hfirst Hlast Ht Htlast.
  assert (Hlx : 0 <= len x <= 1) by (destruct Hx; subst x; cbn; lia).
  assert (Hlf : len (A ++ x) = len A + len x) by apply len_app.
  assert (Hlt : len (A ++ "\" ++ t) = len A + 1 + len t).
  { rewrite !len_app. change (len "\") with 1. lia. }
  unfold win32.relative.
  rewrite eqb_len_neq by lia.
  rewrite Hrf, Hrt. cbn [result_bind].
  rewrite eqb_len_neq by lia.
  rewrite eqb_len_neq by (rewrite !len_toLowerCase; lia).
  cbv zeta.
  set (from := toLowerCase (A ++ x)).
  set (to := toLowerCase (A ++ "\" ++ t)).
  assert (Hfrom : from = toLowerCase A ++ x).
  { unfold from. rewrite toLowerCase_app.
    destruct Hx; subst x; reflexivity. }
  assert (Hto : to = toLowerCase A ++ "\" ++ toLowerCase t).
  { unfold to. now rewrite !toLowerCase_app. }
  assert (Hlfrom : len from = len A + len x)
    by (unfold from; now rewrite len_toLowerCase).
  assert (Hlto : len to = len A + 1 + len t)
    by (unfold to; now rewrite len_toLowerCase).
  assert (Hf0 : win32.isBackslash (charCodeAt from 0) = false).
  { unfold win32.isBackslash, from. rewrite backslash_toLowerCase.
    rewrite charCodeAt_app_l by lia. exact Hfirst. }
  assert (Ht0 : win32.isBackslash (charCodeAt to 0) = false).
  { unfold win32.isBackslash, to. rewrite backslash_toLowerCase.
    rewrite charCodeAt_app_l by lia. exact Hfirst. }
  rewrite (skip_while_stop _ from _ 0 Hf0).
  rewrite (skip_while_stop _ to _ 0 Ht0).
  assert (HfromEnd :
            win32.trim_end from 0 (String.length from) (len from) = len A).
  { rewrite Hlfrom. destruct Hx; subst x.
    - change (len EmptyString) with 0. rewrite Z.add_0_r.
      apply trim_end_stop. unfold win32.isBackslash, from.
      rewrite backslash_toLowerCase, app_empty_r. exact Hlast.
    - change (len "\") with 1.
      assert (Hn : String.length from = S (String.length A)).
      { unfold from. rewrite length_toLowerCase, length_app. simpl. lia. }
      rewrite Hn. cbn [win32.trim_end].
      replace (len A + 1 - 1) with (len A) by lia.
      replace (len A >? 0) with true by lia.
      assert (Hb : win32.isBackslash (charCodeAt from (len A)) = true).
      { unfold win32.isBackslash, from. rewrite backslash_toLowerCase.
        change "\" with (String "\"%char EmptyString).
        rewrite charCodeAt_mid. reflexivity. }
      rewrite Hb. cbn [andb].
      apply trim_end_stop. unfold win32.isBackslash, from.
      rewrite backslash_toLowerCase.
      rewrite charCodeAt_app_l by lia. exact Hlast. }
  assert (HtoEnd : win32.trim_end to 0 (String.length to) (len to) = len to).
  { apply trim_end_stop. unfold win32.isBackslash, to.
    rewrite backslash_toLowerCase. rewrite len_toLowerCase, Hlt.
    replace (len A + 1 + len t - 1) with (len (A ++ "\") + (len t - 1))
      by (rewrite len_app; change (len "\") with 1; lia).
    rewrite <- app_assoc. rewrite charCodeAt_app_r by lia. exact Htlast. }
  rewrite HfromEnd, HtoEnd, Hlto.
  rewrite !Z.sub_0_r.
  replace (len A <? len A + 1 + len t) with true by lia.
  pose proof (wcommon_loop_same (toLowerCase A) x ("\" ++ toLowerCase t)
                (Z.to_nat (len A)) 0 (-1)) as Hcl.
  rewrite <- Hfrom, <- Hto in Hcl.
  destruct (win32.common_loop from to 0 0 (Z.to_nat (len A)) 0 (-1))
    as [i lcs].
  simpl fst in Hcl. rewrite Hcl by (rewrite ?len_toLowerCase; lia).
  rewrite !Z.add_0_l.
  replace (Z.of_nat (Z.to_nat (len A))) with (len A) by lia.
  rewrite Z.eqb_refl. cbn [negb].
  replace (len A + 1 + len t >? len A) with true by lia.
  assert (Hsep : is_code (charCodeAt to (len A)) CHAR_BACKWARD_SLASH = true).
  { unfold to. rewrite backslash_toLowerCase.
    change ("\" ++ t) with (String "\"%char t).
    rewrite charCodeAt_mid. reflexivity. }
  rewrite Hsep. cbn [andb]. f_equal.
  replace (A ++ "\" ++ t) with ((A ++ "\") ++ t) by now rewrite app_assoc.
  replace (len A + 1) with (len (A ++ "\") + 0)
    by (rewrite len_app; change (len "\") with 1; lia).
  rewrite slice_from_app_r by lia. apply slice_from_0.
Qed.

Lemma no_special_backslash (f : string) (j : Z) :
  no_win_special f = true ->
  is_code (charCodeAt f j) CHAR_BACKWARD_SLASH = false.
Proof.
  intros H. pose proof (no_win_special_charCodeAt f j H) as Hs.
  unfold isPathSeparator in Hs. apply orb_false_elim in Hs. tauto.
Qed.

Lemma no_special_colon (f : string) (j : Z) :
  no_win_special f = true -> is_code (charCodeAt f j) CHAR_COLON = false.
Proof.
  unfold charCodeAt. destruct (j <? 0); [reflexivity|].
  generalize (Z.to_nat j). clear j.
  induction f as [|c f IH]; intros n H; [reflexivity|].
  simpl in H. apply andb_prop in H. destruct H as [Hc Hf].
  apply andb_prop in Hc. destruct Hc as [_ Hc].
  destruct n as [|n].
  - simpl. apply negb_true_iff in Hc. exact Hc.
  - apply IH. exact Hf.
Qed.

Lemma join_backslash_nonempty (segs : list string) :
  forallb win_plain_segment segs = true -> segs <> [] ->
  0 < len (join_backslash segs).
Proof.
  destruct segs as [|seg segs]; [congruence|]. intros H _.
  simpl in H. apply andb_prop in H. destruct H as [Hs _].
  pose proof (win_plain_nonempty seg Hs) as Hpos.
  destruct segs as [|seg' segs]; [exact Hpos|].
  change (join_backslash (seg :: seg' :: segs))
    with (seg ++ "\" ++ join_backslash (seg' :: segs)).
  rewrite len_app.
  pose proof (len_nonneg ("\" ++ join_backslash (seg' :: segs))).
  lia.
Qed.

(** The last character of a clean relative path is no backslash. *)
Lemma join_backslash_last (segs : list string) :
  forallb win_plain_segment segs = true -> segs <> [] ->
  is_code (charCodeAt (join_backslash segs) (len (join_backslash segs) - 1))
          CHAR_BACKWARD_SLASH = false.
Proof.
  induction segs as [|seg segs IH]; intros H Hne; [congruence|].
  simpl in H. apply andb_prop in H. destruct H as [Hs Hsegs].
  destruct segs as [|seg' segs].
  - cbn [join_backslash]. apply no_special_backslash.
    now apply win_plain_no_special.
  - change (join_backslash (seg :: seg' :: segs))
      with (seg ++ "\" ++ join_backslash (seg' :: segs)).
    pose proof (join_backslash_nonempty (seg' :: segs) Hsegs) as Hpos.
    specialize (Hpos ltac:(discriminate)).
    rewrite <- app_assoc. rewrite len_app.
    replace (len (seg ++ "\") + len (join_backslash (seg' :: segs)) - 1)
      with (len (seg ++ "\") + (len (join_backslash (seg' :: segs)) - 1))
      by lia.
    rewrite charCodeAt_app_r by lia.
    apply IH; [exact Hsegs | discriminate].
Qed.

Lemma join_backslash_head (segs : list string) :
  forallb win_plain_segment segs = true -> segs <> [] ->
  exists c t, join_backslash segs = String c t
              /\ isPathSeparator (Some (code_of c)) = false
              /\ (code_of c =? CHAR_DOT) = false.
Proof.
  destruct segs as [|seg segs]; [congruence|]. intros H _.
  simpl in H. apply andb_prop in H. destruct H as [Hseg _].
  destruct seg as [|c seg]; [discriminate|].
  unfold win_plain_segment in Hseg. apply andb_prop in Hseg.
  destruct Hseg as [Hd Hs]. simpl in Hs. apply andb_prop in Hs.
  destruct Hs as [Hc _]. apply andb_prop in Hc. destruct Hc as [Hc _].
  apply negb_true_iff in Hc, Hd.
  destruct segs; simpl; eauto.
Qed.

(** From a clean drive path to a clean path below it, the relative
    path is what was added. *)
Lemma relative_clean_child
      (process : Process) (d : ascii) (wsegs tsegs : list string) :
  drive_letter d = true ->
  forallb win_plain_segment wsegs = true ->
  forallb win_plain_segment tsegs = true -> tsegs <> [] ->
  win32.relative process
    (drive_root d ++ join_backslash wsegs)
    (drive_root d ++ join_backslash (wsegs ++ tsegs))
  = Ok (join_backslash tsegs).
Proof.
  intros Hd Hw Ht Hne.
  destruct (drive_letter_no_sep d Hd) as [Hsep _].
  assert (Hdb : is_code (Some (code_of d)) CHAR_BACKWARD_SLASH = false).
  { unfold isPathSeparator in Hsep. apply orb_false_elim in Hsep. tauto. }
  pose proof (join_backslash_nonempty tsegs Ht Hne) as Htpos.
  pose proof (join_backslash_last tsegs Ht Hne) as Htlast.
  pose proof (resolve_clean process d wsegs Hd Hw) as Hrw.
  assert (Hall : forallb win_plain_segment (wsegs ++ tsegs) = true)
    by (rewrite forallb_app; now rewrite Hw, Ht).
  pose proof (resolve_clean process d (wsegs ++ tsegs) Hd Hall) as Hrt.
  destruct wsegs as [|w wsegs].
  - cbn [List.app join_backslash] in *.
    apply (relative_under process (String d ":") "\" (join_backslash tsegs));
      [ exact Hrw | exact Hrt | now right | reflexivity | exact Hdb
      | reflexivity | exact Htpos | exact Htlast ].
  - assert (Hwne : w :: wsegs <> []) by discriminate.
    rewrite (join_backslash_app (w :: wsegs) tsegs Hwne Hne) in *.
    set (jw := join_backslash (w :: wsegs)) in *.
    pose proof (join_backslash_nonempty (w :: wsegs) Hw Hwne) as Hwpos.
    pose proof (join_backslash_last (w :: wsegs) Hw Hwne) as Hwlast.
    fold jw in Hwpos, Hwlast.
    rewrite <- (app_assoc (drive_root d) jw) in *.
    set (A := drive_root d ++ jw) in *.
    assert (Hrw' : win32.resolve process [A ++ EmptyString]
                   = Ok (A ++ EmptyString))
      by (rewrite app_empty_r; exact Hrw).
    rewrite <- (app_empty_r A) at 1.
    apply relative_under;
      [ exact Hrw' | exact Hrt | now left | | exact Hdb | | exact Htpos
      | exact Htlast ]; unfold A.
    + rewrite len_drive_root. lia.
    + rewrite len_drive_root.
      replace (3 + len jw - 1) with (len (drive_root d) + (len jw - 1))
        by (change (len (drive_root d)) with 3; lia).
      rewrite charCodeAt_app_r by lia. exact Hwlast.
Qed.

Lemma app_no_colon (a b : string) :
  (forall j, is_code (charCodeAt a j) CHAR_COLON = false) ->
  (forall j, is_code (charCodeAt b j) CHAR_COLON = false) ->
  forall j, is_code (charCodeAt (a ++ b) j) CHAR_COLON = false.
Proof.
  intros Ha Hb j. pose proof (len_nonneg a).
  destruct (Z.ltb_spec j 0) as [Hneg|Hpos].
  - unfold charCodeAt. replace (j <? 0) with true by lia. reflexivity.
  - destruct (Z.ltb_spec j (len a)) as [Hl|Hr].
    + rewrite charCodeAt_app_l by lia. apply Ha.
    + replace j with (len a + (j - len a)) by lia.
      rewrite charCodeAt_app_r by lia. apply Hb.
Qed.

Lemma join_backslash_no_colon (segs : list string) :
  forallb win_plain_segment segs = true ->
  forall j, is_code (charCodeAt (join_backslash segs) j) CHAR_COLON = false.
Proof.
  induction segs as [|seg segs IH]; intros H j.
  - unfold charCodeAt. destruct (j <? 0); [reflexivity|].
    destruct (Z.to_nat j); reflexivity.
  - simpl in H. apply andb_prop in H. destruct H as [Hs Hsegs].
    pose proof (win_plain_no_special seg Hs) as Hn.
    destruct segs as [|seg' segs].
    + cbn [join_backslash]. now apply no_special_colon.
    + change (join_backslash (seg :: seg' :: segs))
        with (seg ++ "\" ++ join_backslash (seg' :: segs)).
      apply app_no_colon; [intros k; now apply no_special_colon|].
      apply app_no_colon; [|now apply IH].
      intros k. unfold charCodeAt. destruct (k <? 0); [reflexivity|].
      destruct (Z.to_nat k) as [|[|n]]; reflexivity.
Qed.

Lemma dirname_root_relative (p : string) :
  isPathSeparator (charCodeAt p 0) = false ->
  is_code (charCodeAt p 1) CHAR_COLON = false ->
  win32.dirname_root p = inr (-1).
Proof.
  intros H0 H1. unfold win32.dirname_root.
  rewrite H0, H1, andb_false_r. reflexivity.
Qed.

Lemma wdirname_loop_none (f : string) (off : Z) (n : nat) (i : Z) (m : bool) :
  no_win_special f = true -> win32.dirname_loop f off n i m = None.
Proof.
  intros H. revert i m. induction n as [|n IH]; intros i m; [reflexivity|].
  cbn [win32.dirname_loop]. rewrite no_win_special_charCodeAt by exact H.
  apply IH.
Qed.

(** The directory of a bare file name is the current directory. *)
Lemma wdirname_file (f : string) :
  win_plain_segment f = true -> win32.dirname f = ".".
Proof.
  intros Hf. pose proof (win_plain_no_special f Hf) as Hn.
  pose proof (win_plain_nonempty f Hf) as Hpos.
  unfold win32.dirname. cbv zeta.
  replace (len f =? 0) with false by lia.
  rewrite (no_win_special_charCodeAt f 0 Hn).
  destruct (len f =? 1); [reflexivity|].
  rewrite dirname_root_relative;
    [ | now apply no_win_special_charCodeAt | now apply no_special_colon ].
  cbn [Z.eqb]. rewrite wdirname_loop_none by exact Hn. reflexivity.
Qed.

Lemma wdirname_loop_scan (pre f : string) (off : Z) (k n : nat) (m : bool) :
  no_win_special f = true ->
  (k <= String.length f)%nat -> (k < n)%nat ->
  (k = 0%nat -> m = false) ->
  win32.dirname_loop (pre ++ "\" ++ f) off n (len pre + Z.of_nat k) m
  = Some (len pre).
Proof.
  intros Hf. revert n m. induction k as [|k IH]; intros n m Hk Hn Hm.
  - destruct n as [|n]; [lia|]. cbn [win32.dirname_loop].
    rewrite Z.add_0_r. change ("\" ++ f) with (String "\"%char f).
    rewrite charCodeAt_mid. rewrite (Hm eq_refl). reflexivity.
  - destruct n as [|n]; [lia|]. cbn [win32.dirname_loop].
    replace (len pre + Z.of_nat (S k))
      with (len (pre ++ "\") + Z.of_nat k)
      by (rewrite len_app; change (len "\") with 1; lia).
    rewrite <- app_assoc.
    rewrite charCodeAt_app_r by lia.
    rewrite no_win_special_charCodeAt by exact Hf.
    replace (len (pre ++ "\") + Z.of_nat k - 1)
      with (len pre + Z.of_nat k)
      by (rewrite len_app; change (len "\") with 1; lia).
    rewrite app_assoc.
    apply IH; [lia | lia | reflexivity].
Qed.

(** The directory of [dirs\f] is [dirs], for clean relative [dirs]. *)
Lemma wdirname_child (dsegs : list string) (f : string) :
  forallb win_plain_segment dsegs = true -> dsegs <> [] ->
  win_plain_segment f = true ->
  win32.dirname (join_backslash dsegs ++ "\" ++ f) = join_backslash dsegs.
Proof.
  intros Hd Hne Hf.
  pose proof (win_plain_no_special f Hf) as Hn.
  pose proof (win_plain_nonempty f Hf) as Hfpos.
  pose proof (join_backslash_nonempty dsegs Hd Hne) as Hpos.
  destruct (join_backslash_head dsegs Hd Hne) as (c & t & Hj & Hc & _).
  set (pre := join_backslash dsegs) in *.
  assert (Hl : len (pre ++ "\" ++ f) = len pre + 1 + len f).
  { rewrite !len_app. change (len "\") with 1. lia. }
  unfold win32.dirname. cbv zeta. rewrite Hl.
  replace (len pre + 1 + len f =? 0) with false by lia.
  replace (len pre + 1 + len f =? 1) with false by lia.
  rewrite dirname_root_relative.
  - cbn [Z.eqb]. rewrite Z.sub_0_r.
    replace (len pre + 1 + len f - 1)
      with (len pre + Z.of_nat (String.length f)) by (unfold len; lia).
    rewrite wdirname_loop_scan;
      [ | exact Hn | lia | unfold len in *; lia | unfold len in *; lia ].
    rewrite slice_app_l by lia. apply (slice_from_0 pre).
  - rewrite charCodeAt_app_l by lia. rewrite Hj. exact Hc.
  - apply app_no_colon; [apply join_backslash_no_colon; exact Hd|].
    apply app_no_colon; [|intros k; now apply no_special_colon].
    intros k. unfold charCodeAt. destruct (k <? 0); [reflexivity|].
    destruct (Z.to_nat k) as [|[|n]]; reflexivity.
Qed.

(** On a Windows host, for a clean workspace root on a drive and a
    BUILD file below it, the label is ["//"] followed by the
    directories joined with backslashes. *)
Lemma win32_label_of_package
      (process : Process) (d : ascii) (wsegs dsegs : list string)
      (f : string) :
  drive_letter d = true ->
  forallb win_plain_segment wsegs = true ->
  forallb win_plain_segment dsegs = true ->
  win_plain_segment f = true ->
  packageLabel (path_of Win32 process)
               (drive_root d ++ join_backslash wsegs)
               (drive_root d ++ join_backslash (wsegs ++ dsegs ++ [f]))
  = Ok ("//" ++ join_backslash dsegs).
Proof.
  intros Hdl Hw Hd Hf. unfold packageLabel. cbn [path_of relative dirname].
  rewrite relative_clean_child;
    [ | exact Hdl | exact Hw
      | rewrite forallb_app; cbn [forallb]; now rewrite Hd, Hf
      | now destruct dsegs ].
  cbn [result_bind].
  destruct dsegs as [|x dsegs].
  - cbn [List.app join_backslash]. rewrite wdirname_file by exact Hf.
    reflexivity.
  - assert (Hne : x :: dsegs <> []) by discriminate.
    destruct (join_backslash_head (x :: dsegs) Hd Hne)
      as (c & t & Ht & _ & Hdot).
    rewrite join_backslash_app by (assumption || discriminate).
    change (join_backslash [f]) with f.
    rewrite wdirname_child by assumption.
    rewrite Ht. cbn [String.eqb].
    replace (Ascii.eqb c ".") with false; [reflexivity|].
    symmetry. apply Ascii.eqb_neq. intros ->. discriminate.
Qed.
End Win32Facts.

(** ** Further properties of the two files *)

Module Extras.
Import JS NodePath JSFacts PathFacts PosixFacts LabelFacts Claims Win32Facts.

(** A second slash after a directory changes nothing. *)
Lemma normalize_trailing_slash (W : string) :
  normalizeString ((W ++ "/") ++ "/") false "/" isPosixPathSeparator
  = normalizeString (W ++ "/") false "/" isPosixPathSeparator.
Proof.
  set (pre := W ++ "/").
  assert (Hlast : isPosixPathSeparator
            (charCodeAt (pre ++ "/") (len (pre ++ "/") - 1)) = true).
  { rewrite len_app. change (len "/") with 1.
    replace (len pre + 1 - 1) with (len pre) by lia.
    change "/" with (String "/"%char EmptyString).
    rewrite charCodeAt_mid. reflexivity. }
  unfold normalizeString at 1.
  rewrite loop_steps; [ | exact Hlast | | reflexivity].
  2:{ rewrite length_app. simpl. lia. }
  rewrite length_app, steps_add.
  rewrite (steps_prefix _ _ _ pre "/" (String.length pre) 0 normalize_init).
  2:{ unfold normalize_init. simpl. lia. }
  2:{ unfold len. lia. }
  destruct (steps_dir W) as [l Hl]. fold pre in Hl. rewrite Hl.
  cbn [normalize_steps String.length].
  replace (0 + Z.of_nat (String.length pre)) with (len pre)
    by (unfold len; lia).
  change "/" with (String "/"%char EmptyString) at 1 2.
  rewrite charCodeAt_mid.
  unfold normalize_step.
  change (isPosixPathSeparator (Some (code_of "/"))) with true.
  cbn [lastSlash dots res]. rewrite Z.eqb_refl. reflexivity.
Qed.

Lemma absolute_snoc_slash (W : string) :
  posix_absolute W = true -> posix_absolute (W ++ "/") = true.
Proof. apply absolute_app. Qed.

(** X1. On a POSIX host, for every absolute workspace root and every
    BUILD file below it, at any depth and under any plain directory
    and file names, the label is ["//"] followed by the directories
    joined with slashes; the name of the file plays no part. *)
Theorem label_of_nested_package
        (process : Process) (W : string) (dsegs : list string) (f : string) :
  posix_absolute W = true ->
  forallb plain_segment dsegs = true ->
  plain_segment f = true ->
  packageLabel (path_of Posix process) W
               (W ++ "/" ++ join_slash (dsegs ++ [f]))
  = Ok ("//" ++ join_slash dsegs).
Proof. apply posix_label_of_package. Qed.

Lemma label_of_nested_package_witness :
  packageLabel (path_of Posix no_process) "/home/u/ws"
               "/home/u/ws/src/main/java/BUILD.bazel"
  = Ok "//src/main/java".
Proof.
  apply (label_of_nested_package no_process "/home/u/ws"
           ["src"; "main"; "java"] "BUILD.bazel");
    reflexivity.
Defined.

(** X2. On a POSIX host a slash at the end of an absolute workspace
    root does not change the label of any absolute file. *)
Theorem label_ignores_trailing_slash (process : Process) (W F : string) :
  posix_absolute W = true ->
  posix_absolute F = true ->
  packageLabel (path_of Posix process) (W ++ "/") F
  = packageLabel (path_of Posix process) W F.
Proof.
  intros HW HF. unfold packageLabel. cbn [path_of relative dirname].
  f_equal. unfold posix.relative.
  rewrite (resolve_absolute process (W ++ "/")) by (apply absolute_app; exact HW).
  rewrite (resolve_absolute process W HW), (resolve_absolute process F HF).
  rewrite normalize_trailing_slash. cbn [result_bind].
  destruct (String.eqb_spec (W ++ "/") F) as [E1|E1];
    destruct (String.eqb_spec W F) as [E2|E2]; try reflexivity.
  - subst F. rewrite normalize_trailing_slash.
    now rewrite String.eqb_refl.
  - subst F. now rewrite String.eqb_refl.
Qed.

Lemma label_ignores_trailing_slash_witness :
  packageLabel (path_of Posix no_process) "/ws/" "/ws/a/BUILD"
  = packageLabel (path_of Posix no_process) "/ws" "/ws/a/BUILD".
Proof.
  apply (label_ignores_trailing_slash no_process "/ws" "/ws/a/BUILD");
    reflexivity.
Defined.

(** X3. When the file is the workspace root itself the relative path
    is empty, and the label is ["//"]: on both platforms, for every
    string, and without a look at the process. *)
Theorem label_of_workspace_itself
        (platform : Platform) (process : Process) (W : string) :
  packageLabel (path_of platform process) W W = Ok "//".
Proof.
  unfold packageLabel. destruct platform; cbn [path_of relative dirname].
  - unfold posix.relative. rewrite String.eqb_refl. reflexivity.
  - unfold win32.relative. rewrite String.eqb_refl. reflexivity.
Qed.

(** X4. Every call of [getTargetsForBuildFile] ends in one of two
    ways. Either [path.relative] throws: the call fails with that
    error and leaves no event. Or it runs exactly one query, for the
    given workspace and with no options, and its outcome is the
    outcome of that query. It never shows a warning. *)
Theorem getTargetsForBuildFile_outcomes
        (host : Host) (workspace buildFile : string) (tr : Trace) :
  (exists e,
      relative (path host) workspace buildFile = Throw e
      /\ getTargetsForBuildFile host workspace buildFile tr = (Throw e, tr))
  \/ (exists q,
         workspaceRoot q = workspace /\ options q = []
         /\ getTargetsForBuildFile host workspace buildFile tr
            = (queryClient host tr QueryTargets q,
               (tr ++ [RunQuery QueryTargets q])%list)).
Proof.
  destruct (relative (path host) workspace buildFile) as [r|e] eqn:Hr.
  - right.
    assert (Hp : exists pkg,
               packageLabel (path host) workspace buildFile = Ok pkg)
      by (unfold packageLabel; rewrite Hr; eexists; reflexivity).
    destruct Hp as [pkg Hp].
    exists {| workspaceRoot := workspace;
              query := "'kind(rule, " ++ pkg ++ ":all)'";
              options := [] |}.
    repeat split.
    apply (getTargetsForBuildFile_run host workspace buildFile pkg tr Hp).
  - left. exists e. split; [reflexivity|].
    unfold getTargetsForBuildFile, bind, lift, packageLabel.
    rewrite Hr. reflexivity.
Qed.

(** X5. Every call of [provideCodeLenses] ends in one of three ways.
    Without a workspace: one warning, the empty list, no query. With
    a workspace and a throwing [path.relative]: that error, no event.
    Otherwise exactly one query, for the workspace found and with no
    options; the call fails as the query fails, or returns the lenses
    of its result. A warning and a query never come together. *)
Theorem provideCodeLenses_outcomes
        (host : Host) (fsPath : string) (tr : Trace) :
  (getBazelWorkspaceFolder host fsPath = None
   /\ provideCodeLenses host fsPath tr
      = (Ok [], (tr ++ [ShowWarningMessage workspace_warning])%list))
  \/ (exists workspace e,
         getBazelWorkspaceFolder host fsPath = Some workspace
         /\ relative (path host) workspace fsPath = Throw e
         /\ provideCodeLenses host fsPath tr = (Throw e, tr))
  \/ (exists workspace q,
         getBazelWorkspaceFolder host fsPath = Some workspace
         /\ workspaceRoot q = workspace /\ options q = []
         /\ provideCodeLenses host fsPath tr
            = (match queryClient host tr RunAndParse q with
               | Ok queryResult => Ok (addCodeLens workspace queryResult)
               | Throw e => Throw e
               end,
               (tr ++ [RunQuery RunAndParse q])%list)).
Proof.
  destruct (getBazelWorkspaceFolder host fsPath) as [workspace|] eqn:Hw.
  - right.
    destruct (relative (path host) workspace fsPath) as [r|e] eqn:Hr.
    + right.
      assert (Hp : exists pkg,
                 packageLabel (path host) workspace fsPath = Ok pkg)
        by (unfold packageLabel; rewrite Hr; eexists; reflexivity).
      destruct Hp as [pkg Hp].
      exists workspace,
        {| workspaceRoot := workspace;
           query := "'kind(rule, " ++ pkg ++ ":all)'";
           options := [] |}.
      repeat split.
      apply (provideCodeLenses_run host fsPath workspace pkg tr Hw Hp).
    + left. exists workspace, e. split; [reflexivity|].
      split; [exact Hr|].
      unfold provideCodeLenses. rewrite Hw.
      unfold bind, lift, packageLabel. rewrite Hr. reflexivity.
  - left. split; [reflexivity|].
    unfold provideCodeLenses. rewrite Hw. reflexivity.
Qed.

(** X6. For fully qualified paths, on either platform and whatever
    the process, [getTargetsForBuildFile] always reaches the query
    client: exactly one query, for the given workspace, whose outcome
    is the outcome of the call. *)
Theorem getTargetsForBuildFile_reaches_client
        (platform : Platform) (process : Process)
        (gwf : string -> option string)
        (qc : Trace -> QueryMethod -> BazelQuery -> result QueryResult)
        (workspace buildFile : string) (tr : Trace) :
  fully_qualified platform workspace = true ->
  fully_qualified platform buildFile = true ->
  exists q,
    workspaceRoot q = workspace /\ options q = []
    /\ getTargetsForBuildFile
         {| path := path_of platform process;
            getBazelWorkspaceFolder := gwf;
            queryClient := qc |} workspace buildFile tr
       = (qc tr QueryTargets q, (tr ++ [RunQuery QueryTargets q])%list).
Proof.
  intros HW HF.
  destruct (relative_qualified platform process process
              workspace buildFile HW HF) as [_ [r Hr]].
  assert (Hp : exists pkg,
             packageLabel (path_of platform process) workspace buildFile
             = Ok pkg)
    by (unfold packageLabel; rewrite Hr; eexists; reflexivity).
  destruct Hp as [pkg Hp].
  exists {| workspaceRoot := workspace;
            query := "'kind(rule, " ++ pkg ++ ":all)'";
            options := [] |}.
  repeat split.
  apply (getTargetsForBuildFile_run
           {| path := path_of platform process;
              getBazelWorkspaceFolder := gwf;
              queryClient := qc |} workspace buildFile pkg tr Hp).
Qed.

Lemma getTargetsForBuildFile_reaches_client_witness :
  exists q,
    workspaceRoot q = "C:\ws" /\ options q = []
    /\ getTargetsForBuildFile
         {| path := path_of Win32 no_process;
            getBazelWorkspaceFolder := fun _ => None;
            queryClient := fun _ _ _ => Throw bazel_failed |}
         "C:\ws" "C:\ws\a\BUILD" []
       = (Throw bazel_failed, ([] ++ [RunQuery QueryTargets q])%list).
Proof.
  apply (getTargetsForBuildFile_reaches_client
           Win32 no_process (fun _ => None) (fun _ _ _ => Throw bazel_failed)
           "C:\ws" "C:\ws\a\BUILD" []);
    reflexivity.
Defined.

(** X7. On a POSIX host, opening a BUILD file that lies below the
    workspace root found for it, under plain directory names, runs
    one query ['kind(rule, //<dirs>:all)'] in that workspace, shows no
    warning, and on success returns the lenses of the rules found. *)
Theorem provideCodeLenses_in_package
        (process : Process)
        (gwf : string -> option string)
        (qc : Trace -> QueryMethod -> BazelQuery -> result QueryResult)
        (W : string) (dsegs : list string) (f : string) (tr : Trace) :
  gwf (W ++ "/" ++ join_slash (dsegs ++ [f])) = Some W ->
  posix_absolute W = true ->
  forallb plain_segment dsegs = true ->
  plain_segment f = true ->
  provideCodeLenses
    {| path := path_of Posix process;
       getBazelWorkspaceFolder := gwf;
       queryClient := qc |}
    (W ++ "/" ++ join_slash (dsegs ++ [f])) tr
  = (match qc tr RunAndParse
             {| workspaceRoot := W;
                query := "'kind(rule, //" ++ join_slash dsegs ++ ":all)'";
                options := [] |}
     with
     | Ok queryResult => Ok (addCodeLens W queryResult)
     | Throw e => Throw e
     end,
     (tr ++ [RunQuery RunAndParse
               {| workspaceRoot := W;
                  query := "'kind(rule, //" ++ join_slash dsegs ++ ":all)'";
                  options := [] |}])%list).
Proof.
  intros Hw HW Hd Hf.
  rewrite (provideCodeLenses_run
             {| path := path_of Posix process;
                getBazelWorkspaceFolder := gwf;
                queryClient := qc |}
             _ W ("//" ++ join_slash dsegs) tr Hw).
  - reflexivity.
  - cbn [path]. apply posix_label_of_package; assumption.
Qed.

Lemma provideCodeLenses_in_package_witness :
  provideCodeLenses
    {| path := path_of Posix no_process;
       getBazelWorkspaceFolder := fun _ => Some "/ws";
       queryClient := fun _ _ _ => Ok {| rules := [rule_m; rule_t] |} |}
    "/ws/a/b/BUILD" []
  = (Ok (addCodeLens "/ws" {| rules := [rule_m; rule_t] |}),
     [RunQuery RunAndParse
        {| workspaceRoot := "/ws";
           query := "'kind(rule, //a/b:all)'";
           options := [] |}]).
Proof.
  apply (provideCodeLenses_in_package
           no_process (fun _ => Some "/ws")
           (fun _ _ _ => Ok {| rules := [rule_m; rule_t] |})
           "/ws" ["a"; "b"] "BUILD" []);
    reflexivity.
Defined.

(** X8. The lenses of two lists of rules, one after the other, are
    the lenses of the first followed by the lenses of the second. *)
Theorem addCodeLens_app (ws : string) (rs1 rs2 : list Rule) :
  addCodeLens ws {| rules := (rs1 ++ rs2)%list |}
  = (addCodeLens ws {| rules := rs1 |}
     ++ addCodeLens ws {| rules := rs2 |})%list.
Proof.
  unfold addCodeLens. cbn [rules].
  rewrite !addCodeLens_loop_map. cbn [List.app].
  apply map_app.
Qed.

(** X9. Every lens that [addCodeLens] returns comes from a rule of the
    query result: it has the range of that rule, one argument with the
    workspace and the target, and the tooltip ["Build <name>"]; its
    command is [bazel.testTarget] with the title ["Test <name>"] when
    the class of the rule ends with [_test], and [bazel.buildTarget]
    with the title ["Build <name>"] when it does not. *)
Theorem lens_comes_from_rule (ws : string) (qr : QueryResult)
        (lens : CodeLens) :
  In lens (addCodeLens ws qr) ->
  exists rule,
    In rule (rules qr)
    /\ lens_range lens = range (location rule)
    /\ arguments (lens_command lens)
       = [ {| workspaceFolder := ws; targets := [name rule] |} ]
    /\ tooltip (lens_command lens) = "Build " ++ name rule
    /\ ((endsWith (ruleClass rule) "_test" = true
         /\ command (lens_command lens) = "bazel.testTarget"
         /\ title (lens_command lens) = "Test " ++ name rule)
        \/ (endsWith (ruleClass rule) "_test" = false
            /\ command (lens_command lens) = "bazel.buildTarget"
            /\ title (lens_command lens) = "Build " ++ name rule)).
Proof.
  rewrite addCodeLens_map. intros H. apply in_map_iff in H.
  destruct H as [rule [<- Hin]]. exists rule.
  split; [exact Hin|]. unfold addCodeLens_lens.
  destruct (endsWith (ruleClass rule) "_test");
    cbn [lens_range lens_command arguments tooltip command title];
    repeat split; auto.
Qed.

Lemma lens_comes_from_rule_witness :
  let lens := addCodeLens_lens "/ws" rule_t in
  exists rule,
    In rule [rule_m; rule_t]
    /\ lens_range lens = range (location rule)
    /\ arguments (lens_command lens)
       = [ {| workspaceFolder := "/ws"; targets := [name rule] |} ]
    /\ tooltip (lens_command lens) = "Build " ++ name rule
    /\ ((endsWith (ruleClass rule) "_test" = true
         /\ command (lens_command lens) = "bazel.testTarget"
         /\ title (lens_command lens) = "Test " ++ name rule)
        \/ (endsWith (ruleClass rule) "_test" = false
            /\ command (lens_command lens) = "bazel.buildTarget"
            /\ title (lens_command lens) = "Build " ++ name rule)).
Proof.
  intros lens.
  apply (lens_comes_from_rule "/ws" {| rules := [rule_m; rule_t] |} lens).
  right. left. reflexivity.
Defined.

Lemma only_forward_slashes_app (platform : Platform) (a b : string) :
  only_forward_slashes platform (a ++ b)
  = only_forward_slashes platform a && only_forward_slashes platform b.
Proof.
  induction a as [|c a IH]; [reflexivity|].
  cbn [String.append only_forward_slashes]. rewrite IH.
  now rewrite andb_assoc.
Qed.

Lemma plain_only_forward_slashes (seg : string) :
  no_win_special seg = true -> only_forward_slashes Win32 seg = true.
Proof.
  induction seg as [|c seg IH]; intros H; [reflexivity|].
  simpl in H. apply andb_prop in H. destruct H as [Hc Hs].
  apply andb_prop in Hc. destruct Hc as [Hc _].
  cbn [only_forward_slashes is_separator]. rewrite Hc, IH by exact Hs.
  reflexivity.
Qed.

Lemma join_only_forward_slashes (dsegs : list string) :
  forallb win_plain_segment dsegs = true ->
  only_forward_slashes Win32 (join_backslash dsegs)
  = (List.length dsegs <=? 1)%nat.
Proof.
  intros H. destruct dsegs as [|x dsegs]; [reflexivity|].
  simpl in H. apply andb_prop in H. destruct H as [Hx _].
  pose proof (plain_only_forward_slashes x (win_plain_no_special x Hx)) as Hp.
  destruct dsegs as [|y dsegs]; [exact Hp|].
  change (join_backslash (x :: y :: dsegs))
    with (x ++ "\" ++ join_backslash (y :: dsegs)).
  rewrite !only_forward_slashes_app, Hp. reflexivity.
Qed.

Lemma win_ascii_plain (seg : string) :
  win_ascii_segment seg = true -> win_plain_segment seg = true.
Proof.
  unfold win_ascii_segment. intros H. apply andb_prop in H. tauto.
Qed.

Lemma forallb_win_ascii_plain (segs : list string) :
  forallb win_ascii_segment segs = true ->
  forallb win_plain_segment segs = true.
Proof.
  induction segs as [|seg segs IH]; [reflexivity|].
  cbn [forallb]. intros H. apply andb_prop in H. destruct H as [Hs Hr].
  now rewrite (win_ascii_plain seg Hs), IH.
Qed.

(** X10. On a Windows host, for a workspace root [D:\w1\...\wn] and a
    BUILD file [D:\w1\...\wn\d1\...\dk\f] below it, all names plain
    and written in ASCII, the label is ["//"] followed by
    [d1\...\dk], the directories joined with backslashes. *)
Theorem windows_label_of_nested_package
        (process : Process) (d : ascii) (wsegs dsegs : list string)
        (f : string) :
  drive_letter d = true ->
  forallb win_ascii_segment wsegs = true ->
  forallb win_ascii_segment dsegs = true ->
  win_ascii_segment f = true ->
  packageLabel (path_of Win32 process)
               (drive_root d ++ join_backslash wsegs)
               (drive_root d ++ join_backslash (wsegs ++ dsegs ++ [f]))
  = Ok ("//" ++ join_backslash dsegs).
Proof.
  intros Hdl Hw Hd Hf.
  apply win32_label_of_package;
    [ exact Hdl
    | now apply forallb_win_ascii_plain
    | now apply forallb_win_ascii_plain
    | now apply win_ascii_plain ].
Qed.

Lemma windows_label_of_nested_package_witness :
  packageLabel (path_of Win32 no_process)
               "c:\Users\u\ws" "c:\Users\u\ws\src\main\java\BUILD.bazel"
  = Ok "//src\main\java".
Proof.
  apply (windows_label_of_nested_package
           no_process "c" ["Users"; "u"; "ws"] ["src"; "main"; "java"]
           "BUILD.bazel");
    reflexivity.
Defined.

(** X11. On a Windows host, under the same conditions (plain names
    written in ASCII), the label uses the forward slash as its only
    separator exactly when the BUILD file lies at most one directory
    below the workspace root. *)
Theorem windows_label_right_near_root_only
        (process : Process) (d : ascii) (wsegs dsegs : list string)
        (f : string) :
  drive_letter d = true ->
  forallb win_ascii_segment wsegs = true ->
  forallb win_ascii_segment dsegs = true ->
  win_ascii_segment f = true ->
  exists label,
    packageLabel (path_of Win32 process)
                 (drive_root d ++ join_backslash wsegs)
                 (drive_root d ++ join_backslash (wsegs ++ dsegs ++ [f]))
    = Ok label
    /\ only_forward_slashes Win32 label = (List.length dsegs <=? 1)%nat.
Proof.
  intros Hdl Hw Hd Hf. exists ("//" ++ join_backslash dsegs).
  apply forallb_win_ascii_plain in Hw, Hd. apply win_ascii_plain in Hf.
  split; [now apply win32_label_of_package|].
  rewrite only_forward_slashes_app, join_only_forward_slashes by exact Hd.
  reflexivity.
Qed.

Lemma windows_label_right_near_root_only_witness :
  exists label,
    packageLabel (path_of Win32 no_process) "C:\ws" "C:\ws\pkg\BUILD"
    = Ok label
    /\ only_forward_slashes Win32 label = true.
Proof.
  apply (windows_label_right_near_root_only
           no_process "C" ["ws"] ["pkg"] "BUILD");
    reflexivity.
Defined.

(** X12. On a POSIX host whose current directory is gone, when the
    workspace or the BUILD file is not an absolute path (and the two
    differ), [getTargetsForBuildFile] fails with the error of
    [process.cwd()] and runs no query. *)
Theorem getTargetsForBuildFile_needs_cwd
        (e : Error) (env : string -> option string)
        (gwf : string -> option string)
        (qc : Trace -> QueryMethod -> BazelQuery -> result QueryResult)
        (workspace buildFile : string) (tr : Trace) :
  workspace <> buildFile ->
  posix_absolute workspace = false \/ posix_absolute buildFile = false ->
  getTargetsForBuildFile
    {| path := path_of Posix {| cwd := Throw e; env := env |};
       getBazelWorkspaceFolder := gwf;
       queryClient := qc |}
    workspace buildFile tr
  = (Throw e, tr).
Proof.
  intros Hne Hrel.
  set (process := {| cwd := Throw e; env := env |}).
  assert (Hres : forall p, posix_absolute p = false ->
                           posix.resolve process [p] = Throw e).
  { intros p Hp. unfold posix.resolve.
    cbn [rev List.app posix.resolve_loop].
    unfold posix_absolute in Hp. rewrite Hp.
    destruct (len p =? 0); reflexivity. }
  assert (Hr : posix.relative process workspace buildFile = Throw e).
  { unfold posix.relative.
    apply String.eqb_neq in Hne. rewrite Hne.
    destruct (posix_absolute workspace) eqn:HW.
    - rewrite resolve_absolute by exact HW. cbn [result_bind].
      destruct Hrel as [Hw|Hf]; [discriminate|].
      now rewrite (Hres buildFile Hf).
    - now rewrite (Hres workspace HW). }
  unfold getTargetsForBuildFile, bind, lift, packageLabel.
  cbn [path path_of relative]. rewrite Hr. reflexivity.
Qed.

Lemma getTargetsForBuildFile_needs_cwd_witness :
  getTargetsForBuildFile
    {| path := path_of Posix
                 {| cwd := Throw (mkError "ENOENT: process.cwd failed");
                    env := fun _ => None |};
       getBazelWorkspaceFolder := fun _ => None;
       queryClient := fun _ _ _ => Ok {| rules := [] |} |}
    "ws" "ws/a/BUILD" []
  = (Throw (mkError "ENOENT: process.cwd failed"), []).
Proof.
  apply (getTargetsForBuildFile_needs_cwd
           (mkError "ENOENT: process.cwd failed") (fun _ => None)
           (fun _ => None) (fun _ _ _ => Ok {| rules := [] |})
           "ws" "ws/a/BUILD" []).
  - discriminate.
  - left. reflexivity.
Defined.
End Extras.
